(** * Velopark crawl engine: a shallow embedding of [auto_walkthrough.py]

    The development follows the source file top-down:

    - [Geofence]: the module-level constants [latcenter_nancy],
      [longcenter_nancy], [R_nancy] and the predicate [in_nancy], over
      binary64 floats (Python [float] / [numpy.float64]), with [**]
      idealised as said there;
    - [UrlParser]: [parse_google_maps_url] with its three regular
      expressions and the [float()] conversion of the captured groups;
    - [Store]: the two PostgreSQL tables [to_insert] (the frontier) and
      [panoids] (the visited set) with the transaction discipline of
      psycopg2, and the functions [insert_db] and
      [get_starting_coordinates];
    - [Controller]: [create_streetview_url], [set_url] and one pass of the
      [while True] loop of [selenium_walkthrough]. *)

From Stdlib Require Import ZArith List Bool String Ascii Lia.
From Stdlib Require Import PrimFloat SpecFloat FloatOps.
Import ListNotations.

(* Decimal literals such as 48.693167 denote the nearest binary64 value,
   exactly as the same literal does in Python. *)
Set Warnings "-inexact-float".

(** ** Geofence (source lines 199-204) *)

Module Geofence.

Local Open Scope float_scope.

(** [x ** 2] on a float, read as the correctly rounded square.  Python
    computes it with the C library's [pow], which does not promise the last
    bit and raises [OverflowError] where the square is out of range; the
    fence test is therefore modelled up to that last bit, and nothing about
    points on the circle itself is stated from it. *)
Definition sq (x : float) : float := x * x.

Definition latcenter_nancy : float := 48.693167.
Definition longcenter_nancy : float := 6.185472.

(** [R_nancy = np.sqrt((latcenter_nancy-48.667770)**2 + (6.146822-longcenter_nancy)**2)] *)
Definition R_nancy : float :=
  sqrt (sq (latcenter_nancy - 48.667770) + sq (6.146822 - longcenter_nancy)).

(** The left-hand side of the comparison in [in_nancy]. *)
Definition sqdist (lat long : float) : float :=
  sq (long - longcenter_nancy) + sq (lat - latcenter_nancy).

(** [return ((long-longcenter_nancy)**2 + (lat-latcenter_nancy)**2 <= R_nancy**2)] *)
Definition in_nancy (lat long : float) : bool :=
  sqdist lat long <=? sq R_nancy.

End Geofence.

(** ** URL parser (source lines 207-245) *)

Module UrlParser.

Local Open Scope string_scope.

(** *** A deterministic matcher for the three patterns

    A Python [str] is modelled as a [string] of 8-bit characters; on these
    the class [\d] is exactly ['0'..'9'].  Every quantifier of the three
    patterns is followed by a character outside its class (or by the end of
    the pattern), so the greedy match is the only match at a given start and
    no backtracking is needed. *)

Definition is_digit (c : ascii) : bool :=
  let n := nat_of_ascii c in (48 <=? n)%nat && (n <=? 57)%nat.

(** Longest prefix whose characters satisfy [p], and what follows it. *)
Fixpoint span (p : ascii -> bool) (s : string) : string * string :=
  match s with
  | String c s' =>
      if p c then let (a, b) := span p s' in (String c a, b) else ("", s)
  | EmptyString => ("", "")
  end.

(** [lit l s]: [s] starts with the literal [l]; returns the rest. *)
Fixpoint lit (l s : string) : option string :=
  match l with
  | EmptyString => Some s
  | String a l' =>
      match s with
      | String c s' => if Ascii.eqb a c then lit l' s' else None
      | EmptyString => None
      end
  end.

(** Every character of [s] satisfies [p]. *)
Fixpoint all_chars (p : ascii -> bool) (s : string) : bool :=
  match s with
  | String c s' => p c && all_chars p s'
  | EmptyString => true
  end.

(** [s] is empty or starts with a character outside [p]. *)
Definition stops (p : ascii -> bool) (s : string) : bool :=
  match s with
  | String c _ => negb (p c)
  | EmptyString => true
  end.

(** [X+] for a character class [X]: a non-empty longest run. *)
Definition plus (p : ascii -> bool) (s : string) : option (string * string) :=
  match span p s with
  | (EmptyString, _) => None
  | (run, rest) => Some (run, rest)
  end.

(** The group [(-?\d+\.\d+)]: sign, integer digits, fraction digits, rest. *)
Definition number (s : string) : option (bool * string * string * string) :=
  let (neg, s1) :=
    match s with
    | String c s' => if Ascii.eqb c "-"%char then (true, s') else (false, s)
    | EmptyString => (false, s)
    end in
  match plus is_digit s1 with
  | Some (ip, s2) =>
      match lit "." s2 with
      | Some s3 =>
          match plus is_digit s3 with
          | Some (fp, s4) => Some (neg, ip, fp, s4)
          | None => None
          end
      | None => None
      end
  | None => None
  end.

(** The text of a captured number group. *)
Definition number_text (neg : bool) (ip fp : string) : string :=
  (if neg then "-" else "") ++ ip ++ "." ++ fp.

(** [re.search]: the match at the leftmost start position that has one. *)
Fixpoint search {A : Type} (m : string -> option A) (s : string) : option A :=
  match m s with
  | Some r => Some r
  | None =>
      match s with
      | String _ s' => search m s'
      | EmptyString => None
      end
  end.

(** [r'/@(-?\d+\.\d+),(-?\d+\.\d+),'] anchored at the start of [s]:
    groups 1 and 2. *)
Definition lat_lon_at (s : string) : option (string * string) :=
  match lit "/@" s with
  | Some s1 =>
      match number s1 with
      | Some (n1, i1, f1, s2) =>
          match lit "," s2 with
          | Some s3 =>
              match number s3 with
              | Some (n2, i2, f2, s4) =>
                  match lit "," s4 with
                  | Some _ => Some (number_text n1 i1 f1, number_text n2 i2 f2)
                  | None => None
                  end
              | None => None
              end
          | None => None
          end
      | None => None
      end
  | None => None
  end.

Definition not_pct_amp (c : ascii) : bool :=
  negb (Ascii.eqb c "%"%char || Ascii.eqb c "&"%char).

Definition not_bang (c : ascii) : bool := negb (Ascii.eqb c "!"%char).

(** [r'panoid%3D([^%&]+)'] anchored at the start of [s]: group 1. *)
Definition panoid_at (s : string) : option string :=
  match lit "panoid%3D" s with
  | Some s1 =>
      match plus not_pct_amp s1 with
      | Some (g, _) => Some g
      | None => None
      end
  | None => None
  end.

(** [r'!3m5!1s([^!]+)!'] anchored at the start of [s]: group 1. *)
Definition pano3m5_at (s : string) : option string :=
  match lit "!3m5!1s" s with
  | Some s1 =>
      match plus not_bang s1 with
      | Some (g, s2) =>
          match lit "!" s2 with
          | Some _ => Some g
          | None => None
          end
      | None => None
      end
  | None => None
  end.

(** *** [float()] on decimal text

    [py_float s] is Python's [float(s)] for [s] of the shape
    [-?\d+\.\d+]: the binary64 value nearest to the decimal (ties to even,
    overflow to infinity).  [None] stands for the [ValueError] that
    [float] raises on malformed text; other spellings that Python also
    accepts (exponents, [inf], blanks) are outside this model and never
    reach it from the parser. *)

Definition digit_val (c : ascii) : Z := Z.of_nat (nat_of_ascii c) - 48.

Fixpoint digits_to_Z (acc : Z) (s : string) : Z :=
  match s with
  | String c s' => digits_to_Z (10 * acc + digit_val c) s'
  | EmptyString => acc
  end.

(** The decimal [ip.fp] is the rational [n / 10^|fp|]; it is rounded once,
    the way [SFdiv] rounds a quotient. *)
Definition decimal_to_float (neg : bool) (ip fp : string) : float :=
  let n := digits_to_Z (digits_to_Z 0 ip) fp in
  let d := (10 ^ Z.of_nat (String.length fp))%Z in
  match n with
  | Z0 => SF2Prim (S754_zero neg)
  | _ =>
      let '(q, e, l) := SFdiv_core_binary prec emax n 0 d 0 in
      SF2Prim (binary_round_aux prec emax neg q e l)
  end.

Definition py_float (s : string) : option float :=
  match number s with
  | Some (neg, ip, fp, EmptyString) => Some (decimal_to_float neg ip fp)
  | _ => None
  end.

(** *** [parse_google_maps_url] *)

Definition triple : Type := option float * option float * option string.

(** The body of the [try] block; [inl tt] is a raised exception. *)
Definition parse_body (url : string) : unit + triple :=
  match search lat_lon_at url with
  | Some (g1, g2) =>
      match py_float g1 with
      | Some latitude =>
          match py_float g2 with
          | Some longitude =>
              match search panoid_at url with
              | Some pano_id => inr (Some latitude, Some longitude, Some pano_id)
              | None =>
                  match search pano3m5_at url with
                  | Some pano_id => inr (Some latitude, Some longitude, Some pano_id)
                  | None => inr (Some latitude, Some longitude, None)
                  end
              end
          | None => inl tt
          end
      | None => inl tt
      end
  | None => inr (None, None, None)
  end.

(** [try: ... except Exception: return None, None, None] *)
Definition parse_google_maps_url (url : string) : triple :=
  match parse_body url with
  | inr r => r
  | inl _ => (None, None, None)
  end.

End UrlParser.

(** ** Exceptions and state: the monad of the effectful code

    Code that runs against a mutable state [S] (an open database
    connection, or the browser and the database together) and may raise. *)

Inductive exn : Type :=
| DatabaseError        (* psycopg2.Error *)
| TypeError
| IndexError
| WebDriverException.  (* raised by selenium when the browser is gone *)

Definition M (S A : Type) : Type := S -> (exn + A) * S.

Definition ret {S A : Type} (a : A) : M S A := fun s => (inr a, s).

Definition raise {S A : Type} (e : exn) : M S A := fun s => (inl e, s).

Definition bind {S A B : Type} (m : M S A) (k : A -> M S B) : M S B :=
  fun s =>
    match m s with
    | (inr a, s') => k a s'
    | (inl e, s') => (inl e, s')
    end.

Notation "x <- m ;; k" := (bind m (fun x => k))
  (at level 61, m at next level, right associativity).
Notation "m ;;; k" := (bind m (fun _ => k))
  (at level 61, right associativity).

(** What a call gives its caller: a returned value, or an exception that
    escapes the function. *)
Inductive result (A : Type) : Type :=
| Returned (a : A)
| Raised.
Arguments Returned {A} a.
Arguments Raised {A}.

(** ** The two tables and the database functions (source lines 120-196, 574-620) *)

Module Store.

(** A [DECIMAL(10,8)] or [DECIMAL(11,8)] column: the value times 10^8. *)
Definition decimal : Type := Z.

(** A PostGIS point [ST_MakePoint(x, y)]: [x] is the longitude, [y] the
    latitude. *)
Definition point : Type := (float * float)%type.

(** The two PostGIS operators the queries use.  They are library code, not
    code of this repository, so they are taken as an interface:
    [ST_DWithin a b r] is [ST_DWithin(a::geography, b::geography, r)] and
    [knn_lt q a b] says that [a <-> q] sorts strictly before [b <-> q]. *)
Class PostGIS : Type := {
  ST_DWithin : point -> point -> float -> bool;
  knn_lt : point -> point -> point -> bool
}.

(** Rows of [to_insert] and [panoids] as the schema comment at the end of
    the source declares them.  The [SERIAL] keys are left out: no statement
    of the crawl reads them.  A [panoids] row is kept with the float values
    the caller passed: its [geom] column is exactly
    [ST_MakePoint(longitude, latitude)] and its two [DECIMAL] columns are
    their roundings. *)
Record frontier_row : Type := {
  latitude : decimal;
  longitude : decimal;
  geom : option point
}.

Record panoid_row : Type := {
  p_latitude : float;
  p_longitude : float;
  p_pano_id : option string
}.

(** The database: each table is the list of its rows in scan order. *)
Record db : Type := {
  to_insert : list frontier_row;
  panoids : list panoid_row
}.

(** *** Connections, transactions and faults *)

(** The statements one call can issue, in program order.  A [plan] tells
    which of them raises [psycopg2.Error] (connection loss, a violated
    column constraint, ...). *)
Inductive db_op : Type :=
  Connect | ExecSelect | ExecDelete | Commit1 | ExecInsert | Commit2.

Definition plan : Type := db_op -> bool.

Definition no_fault : plan := fun _ => false.

Definition db_op_eqb (a b : db_op) : bool :=
  match a, b with
  | Connect, Connect | ExecSelect, ExecSelect | ExecDelete, ExecDelete
  | Commit1, Commit1 | ExecInsert, ExecInsert | Commit2, Commit2 => true
  | _, _ => false
  end.

(** The plan in which exactly the statement [op] fails. *)
Definition fault_at (op : db_op) : plan := db_op_eqb op.

(** A psycopg2 connection: what is durable and what the open transaction
    sees. *)
Record conn : Type := {
  committed : db;
  pending : db
}.

(** Every statement first consults the plan. *)
Definition guard (pl : plan) (op : db_op) : M conn unit :=
  if pl op then raise DatabaseError else ret tt.

(** [conn.commit()] *)
Definition commit (pl : plan) (op : db_op) : M conn unit :=
  guard pl op ;;;
  fun c => (inr tt, {| committed := pending c; pending := pending c |}).

(** [conn.rollback()] *)
Definition rollback (c : conn) : conn :=
  {| committed := committed c; pending := committed c |}.

(** [psycopg2.connect(...)] on the database [d]. *)
Definition connect (d : db) : conn := {| committed := d; pending := d |}.

(** [conn.close()]: what is left is what was committed. *)
Definition close (c : conn) : db := committed c.

Section Queries.

Context {gis : PostGIS}.

Local Open Scope float_scope.

(** [ST_SetSRID(ST_MakePoint(%s, %s), 4326)] with parameters
    [(longitude, latitude)]; NULL when a parameter is [None]. *)
Definition make_point (longitude latitude : option float) : option point :=
  match longitude, latitude with
  | Some x, Some y => Some (x, y)
  | _, _ => None
  end.

(** The [WHERE] clause of [find_nearest_query]. *)
Definition in_range (q : point) (r : frontier_row) : bool :=
  match geom r with
  | Some g => ST_DWithin g q 30
  | None => false
  end.

(** [ORDER BY geom <-> q]: does [r] sort strictly before [best]? *)
Definition closer (q : point) (r best : frontier_row) : bool :=
  match geom r, geom best with
  | Some a, Some b => knn_lt q a b
  | _, _ => false
  end.

(** [ORDER BY ... LIMIT 1] over a non-empty candidate list: a least row;
    among equally near rows the model takes the first in scan order. *)
Fixpoint nearest (q : point) (best : frontier_row) (rs : list frontier_row)
  : frontier_row :=
  match rs with
  | [] => best
  | r :: rs' => nearest q (if closer q r best then r else best) rs'
  end.

Definition select_nearest (q : option point) (rows : list frontier_row)
  : option frontier_row :=
  match q with
  | Some q =>
      match filter (in_range q) rows with
      | [] => None
      | r :: rs => Some (nearest q r rs)
      end
  | None => None
  end.

(** [cursor.execute(find_nearest_query, ...); cursor.fetchone()]: the
    [latitude] and [longitude] columns of the selected row. *)
Definition find_nearest_query (pl : plan) (q : option point)
  : M conn (option (decimal * decimal)) :=
  guard pl ExecSelect ;;;
  fun c =>
    (inr (option_map (fun r => (latitude r, longitude r))
            (select_nearest q (to_insert (pending c)))), c).

(** [WHERE latitude = %s AND longitude = %s] *)
Definition same_coordinates (lat lon : decimal) (r : frontier_row) : bool :=
  (latitude r =? lat)%Z && (longitude r =? lon)%Z.

(** [cursor.execute(delete_query, ...)]; returns [cursor.rowcount]. *)
Definition delete_query (pl : plan) (lat lon : decimal) : M conn nat :=
  guard pl ExecDelete ;;;
  fun c =>
    let rows := to_insert (pending c) in
    (inr (List.length (filter (same_coordinates lat lon) rows)),
     {| committed := committed c;
        pending := {| to_insert :=
                        filter (fun r => negb (same_coordinates lat lon r)) rows;
                      panoids := panoids (pending c) |} |}).

(** The f-string [{latitude:.6f}, {longitude:.6f}] of the [else] branch:
    formatting [None] with [.6f] raises [TypeError]. *)
Definition format_6f (latitude longitude : option float) : M conn unit :=
  match latitude, longitude with
  | Some _, Some _ => ret tt
  | _, _ => raise TypeError
  end.

(** [INSERT INTO panoids ...]: both coordinate columns are [NOT NULL];
    [pano_id] may be NULL. *)
Definition insert_query (pl : plan) (lat long : option float)
  (pano_id : option string) : M conn unit :=
  guard pl ExecInsert ;;;
  match lat, long with
  | Some la, Some lo =>
      fun c =>
        (inr tt,
         {| committed := committed c;
            pending := {| to_insert := to_insert (pending c);
                          panoids := panoids (pending c) ++
                            [{| p_latitude := la; p_longitude := lo;
                                p_pano_id := pano_id |}] |} |})
  | _, _ => raise DatabaseError
  end.

(** Lines 142-171: find the nearest frontier point within 30 m and delete
    the rows that carry its coordinates.  Returns the number of rows
    deleted. *)
Definition prune_nearest (pl : plan) (lat long : option float) : M conn nat :=
  nearest_point <- find_nearest_query pl (make_point long lat) ;;
  match nearest_point with
  | Some (nearest_lat, nearest_lon) => delete_query pl nearest_lat nearest_lon
  | None => format_6f lat long ;;; ret 0%nat
  end.

(** The body of the [try] block of [insert_db], after the connection is
    open. *)
Definition insert_db_try (pl : plan) (lat long : option float)
  (pano_id : option string) : M conn bool :=
  prune_nearest pl lat long ;;;
  commit pl Commit1 ;;;
  insert_query pl lat long pano_id ;;;
  commit pl Commit2 ;;;
  ret true.

(** [insert_db(latitude, longitude, pano_id)] on the database [d]:
    [except psycopg2.Error] rolls back and returns [False]; any other
    exception escapes; [finally] closes the connection. *)
Definition insert_db (pl : plan) (d : db) (lat long : option float)
  (pano_id : option string) : result bool * db :=
  if pl Connect then (Returned false, d)
  else
    match insert_db_try pl lat long pano_id (connect d) with
    | (inr b, c) => (Returned b, close c)
    | (inl DatabaseError, c) => (Returned false, close (rollback c))
    | (inl _, c) => (Raised, close c)
    end.

(** [get_starting_coordinates()]: [SELECT latitude, longitude FROM
    to_insert LIMIT 1].  The [DELETE] that follows in the source sits inside
    a string literal and is not executed.  [except Exception] returns
    [(None, None)]. *)
Definition get_starting_coordinates (pl : plan) (d : db)
  : (option decimal * option decimal) * db :=
  if pl Connect || pl ExecSelect then ((None, None), d)
  else
    match to_insert d with
    | r :: _ => ((Some (latitude r), Some (longitude r)), d)
    | [] => ((None, None), d)
    end.

(** The frontier prune on its own, as the operation [PruneNear(p, 30)]:
    the new frontier and the number of rows removed, when no statement
    fails. *)
Definition PruneNear (fr : list frontier_row) (lat long : float)
  : list frontier_row * nat :=
  match select_nearest (Some (long, lat)) fr with
  | Some n =>
      (filter (fun r => negb (same_coordinates (latitude n) (longitude n) r)) fr,
       List.length (filter (same_coordinates (latitude n) (longitude n)) fr))
  | None => (fr, 0%nat)
  end.

End Queries.

End Store.

(** ** The crawl controller (source lines 351-464, 622-662) *)

Module Controller.

Import Store.

(** [Keys.ARROW_UP] and [Keys.ARROW_DOWN]. *)
Inductive key : Type := ARROW_UP | ARROW_DOWN.

(** The value of the variable [url]: the string given on the command line,
    or the result of [create_streetview_url].  The latter is the f-string
    [https://maps.google.com/maps?q=&layer=c&cbll={latitude},{longitude}];
    it is kept symbolically, since its text is only handed to the browser. *)
Inductive url_value : Type :=
| GivenUrl (s : string)
| StreetViewUrl (latitude longitude : decimal).

Definition create_streetview_url (latitude longitude : decimal) : url_value :=
  StreetViewUrl latitude longitude.

(** Everything outside the controller.  The browser is scripted: [feed]
    lists what the successive reads of [driver.current_url] give ([None]:
    the read raises; an exhausted script also raises), and [pressed]
    records the keys sent so far, latest first.  [plans] gives the fault
    plan of each successive call of a database function; when it runs out
    nothing fails any more. *)
Record world : Type := {
  database : db;
  feed : list (option string);
  pressed : list key;
  plans : list plan
}.

(** The local variables of [selenium_walkthrough] that the loop updates. *)
Record ctrl : Type := {
  move : bool;
  iter : Z;
  keytopress : key;
  old_lat_long : float * float;
  chained_fail : Z;
  url : option url_value
}.

(** The branch a pass of the loop took, named after what it prints:
    "cannot go forward", "Leaving Nancy and setup perimeter", "already seen
    or db problem" (without and with "too much fail aborting trying new
    url"), and a pass that reaches the end of the body. *)
Inductive event : Type :=
| Stalled
| OutOfBounds
| Retry
| FailureThreshold
| Committed.

Inductive break_reason : Type :=
| ParsingProblem      (* "Parsing url problem" *)
| BrowserFailed.      (* the [except Exception] of the loop *)

Inductive outcome : Type :=
| Continue (e : event) (st : ctrl)
| Break (r : break_reason).

Section Loop.

Context {gis : PostGIS}.

Local Open Scope float_scope.

(** [driver.current_url] *)
Definition current_url : M world string :=
  fun w =>
    match feed w with
    | Some u :: rest =>
        (inr u, {| database := database w; feed := rest;
                   pressed := pressed w; plans := plans w |})
    | None :: rest =>
        (inl WebDriverException,
         {| database := database w; feed := rest;
            pressed := pressed w; plans := plans w |})
    | [] => (inl WebDriverException, w)
    end.

(** [driver.switch_to.active_element.send_keys(k)] *)
Definition send_keys (k : key) : M world unit :=
  fun w =>
    (inr tt, {| database := database w; feed := feed w;
                pressed := k :: pressed w; plans := plans w |}).

(** The fault plan of the next database call. *)
Definition next_plan : M world plan :=
  fun w =>
    match plans w with
    | pl :: rest =>
        (inr pl, {| database := database w; feed := feed w;
                    pressed := pressed w; plans := rest |})
    | [] => (inr no_fault, w)
    end.

Definition call_insert_db (lat long : option float) (pano_id : option string)
  : M world bool :=
  pl <- next_plan ;;
  fun w =>
    let (r, d) := insert_db pl (database w) lat long pano_id in
    let w' := {| database := d; feed := feed w;
                 pressed := pressed w; plans := plans w |} in
    match r with
    | Returned b => (inr b, w')
    | Raised => (inl TypeError, w')
    end.

Definition call_get_starting_coordinates
  : M world (option decimal * option decimal) :=
  pl <- next_plan ;;
  fun w =>
    let (r, d) := get_starting_coordinates pl (database w) in
    (inr r, {| database := d; feed := feed w;
               pressed := pressed w; plans := plans w |}).

(** [run_streetview_downloader_single(pano_id, None)]: an external process
    whose failures the function catches itself; its verdict is ignored by
    both callers.  Building the command from a [None] id raises
    [TypeError] in [subprocess.run]. *)
Definition run_streetview_downloader_single (pano_id : option string)
  : M world unit :=
  match pano_id with
  | Some _ => ret tt
  | None => raise TypeError
  end.

(** [set_url(driver, actions, url)].  [url[:60]] raises on [None]. *)
Definition set_url (url : option url_value) : M world ((float * float) * Z) :=
  match url with
  | None => raise TypeError
  | Some _ =>
      (* driver.get(url) *)
      current_url_ <- current_url ;;
      let '(lat, long, panoid) := UrlParser.parse_google_maps_url current_url_ in
      ok <- call_insert_db lat long panoid ;;
      (if ok then run_streetview_downloader_single panoid else ret tt) ;;;
      (* the click that gives the page the keyboard focus *)
      new_url <- current_url ;;
      ret ((0, 0), 0%Z)
  end.

(** The block that the three recovery branches share (lines 416-419,
    429-432, 442-445): call [get_starting_coordinates]; when both
    coordinates are not [None], point [url] at them with
    [create_streetview_url]; then call [set_url] on [url], whose pair
    becomes [old_lat_long] and [chained_fail].  It returns the new values
    of [url], [old_lat_long] and [chained_fail]. *)
Definition reseed (url : option url_value)
  : M world (option url_value * (float * float) * Z) :=
  coordinates <- call_get_starting_coordinates ;;
  let url' :=
    match coordinates with
    | (Some la, Some lo) => Some (create_streetview_url la lo)
    | _ => url
    end in
  r <- set_url url' ;;
  ret (url', fst r, snd r).

(** [(lat,long)==old_lat_long] *)
Definition same_position (lat long : option float) (old : float * float)
  : bool :=
  match lat, long with
  | Some la, Some lo => (la =? fst old) && (lo =? snd old)
  | _, _ => false
  end.

Definition flip_key (k : key) : key :=
  match k with
  | ARROW_DOWN => ARROW_UP
  | ARROW_UP => ARROW_DOWN
  end.

(** The body of the inner [try] of the [while True] loop (lines 404-460). *)
Definition loop_try (st : ctrl) : M world outcome :=
  (if move st then send_keys (keytopress st) else ret tt) ;;;
  current_url_ <- current_url ;;
  let '(lat, long, panoid) := UrlParser.parse_google_maps_url current_url_ in
  if same_position lat long (old_lat_long st) then
    r <- reseed (url st) ;;
    let '(url', old', fails') := r in
    ret (Continue Stalled
           {| move := false; iter := iter st + 1; keytopress := keytopress st;
              old_lat_long := old'; chained_fail := fails'; url := url' |})
  else
    match lat, long, panoid with
    | Some la, Some lo, Some _ =>
        if negb (Geofence.in_nancy la lo) then
          r <- reseed (url st) ;;
          let '(url', old', fails') := r in
          ret (Continue OutOfBounds
                 {| move := false; iter := iter st; keytopress := keytopress st;
                    old_lat_long := old'; chained_fail := fails'; url := url' |})
        else
          ok <- call_insert_db lat long panoid ;;
          if negb ok then
            let fails := (chained_fail st + 1)%Z in
            if (fails >? 2)%Z then
              r <- reseed (url st) ;;
              let '(url', old', fails') := r in
              ret (Continue FailureThreshold
                     {| move := false; iter := iter st + 1;
                        keytopress := flip_key (keytopress st);
                        old_lat_long := old'; chained_fail := fails';
                        url := url' |})
            else
              ret (Continue Retry
                     {| move := true; iter := iter st;
                        keytopress := keytopress st;
                        old_lat_long := old_lat_long st;
                        chained_fail := fails; url := url st |})
          else
            run_streetview_downloader_single panoid ;;;
            ret (Continue Committed
                   {| move := true; iter := iter st + 1;
                      keytopress := keytopress st;
                      old_lat_long := (la, lo); chained_fail := 0;
                      url := url st |})
    | _, _, _ => ret (Break ParsingProblem)
    end.


(** One pass of the loop: an exception anywhere in the body leaves the
    loop. *)
Definition loop_body (w : world) (st : ctrl) : outcome * world :=
  match loop_try st w with
  | (inr o, w') => (o, w')
  | (inl _, w') => (Break BrowserFailed, w')
  end.

(** [n] passes in a row, with the events met on the way.  [None] once a
    pass has left the loop. *)
Fixpoint run (n : nat) (w : world) (st : ctrl)
  : option (list event * ctrl * world) :=
  match n with
  | O => Some ([], st, w)
  | S n' =>
      match loop_body w st with
      | (Continue e st', w') =>
          match run n' w' st' with
          | Some (es, st'', w'') => Some (e :: es, st'', w'')
          | None => None
          end
      | (Break _, _) => None
      end
  end.

End Loop.

End Controller.

(** ** A flat stand-in for PostGIS, to run the model on sample data

    Coordinates are read exactly, in units of 10^-7 degree, and one degree
    counts 111 km in both directions.  [ST_DWithin] on geographies is a
    geodesic computation; the stand-in is only used at sample points where
    its verdict is beyond doubt (the same point, points a metre apart,
    points kilometres apart). *)

Module Planar.

Import Store.

(** The integer part of [x * 10^7] for a finite [x], and 0 otherwise. *)
Definition units (x : float) : Z :=
  match Prim2SF x with
  | S754_finite s m e =>
      let v := match e with
               | Zneg p => Z.shiftr (Zpos m * 10 ^ 7) (Zpos p)
               | _ => Z.shiftl (Zpos m * 10 ^ 7) e
               end in
      if s then (- v)%Z else v
  | _ => 0%Z
  end.

(** The squared planar distance of two points, in squared units. *)
Definition dist2 (a b : point) : Z :=
  let dx := (units (fst a) - units (fst b))%Z in
  let dy := (units (snd a) - units (snd b))%Z in
  (dx * dx + dy * dy)%Z.

Definition planar_DWithin (a b : point) (r : float) : bool :=
  (111000 * 111000 * dist2 a b <=? units r * units r)%Z.

Definition planar_knn_lt (q a b : point) : bool :=
  (dist2 a q <? dist2 b q)%Z.

#[export] Instance planar : PostGIS := {
  ST_DWithin := planar_DWithin;
  knn_lt := planar_knn_lt
}.

End Planar.

(** ** Sample data *)

Module Sample.

Import Store Controller.

Local Open Scope string_scope.
Local Open Scope float_scope.

(** The panorama of the first line of the source. *)
Definition url_A : string :=
  "https://www.google.com/maps/@48.6738246,6.1744465,3a,75y,0h,90t/data=!3m7!1e1!3m5!1smITixiRaLqJT8pRKf6kvLQ!2e0".

Definition lat_A : float := 48.6738246.
Definition long_A : float := 6.1744465.
Definition pano_A : string := "mITixiRaLqJT8pRKf6kvLQ".

(** A panorama some 700 m further north. *)
Definition url_B : string :=
  "https://www.google.com/maps/@48.6800000,6.1744465,3a,75y,0h,90t/data=!3m7!1e1!3m5!1sBBBBBBBBBBBBBBBBBBBBBB!2e0".

Definition lat_B : float := 48.6800000.
Definition long_B : float := 6.1744465.
Definition pano_B : string := "BBBBBBBBBBBBBBBBBBBBBB".

(** A panorama in Metz, outside the fence. *)
Definition url_far : string :=
  "https://www.google.com/maps/@49.1193089,6.1757156,3a,75y,0h,90t/data=!3m7!1e1!3m5!1sCCCCCCCCCCCCCCCCCCCCCC!2e0".

(** Two frontier candidates about one metre from panorama A, on either
    side of it, and one near panorama B. *)
Definition cand_1 : frontier_row :=
  {| latitude := 4867383460%Z; longitude := 617444650%Z;
     geom := Some (6.1744465, 48.6738346) |}.

Definition cand_2 : frontier_row :=
  {| latitude := 4867381260%Z; longitude := 617444650%Z;
     geom := Some (6.1744465, 48.6738126) |}.

Definition cand_3 : frontier_row :=
  {| latitude := 4868000000%Z; longitude := 617444650%Z;
     geom := Some (6.1744465, 48.6800000) |}.

Definition empty_db : db := {| to_insert := []; panoids := [] |}.

Definition row_A : panoid_row :=
  {| p_latitude := lat_A; p_longitude := long_A; p_pano_id := Some pano_A |}.

End Sample.

(** ** Sample sessions *)

Module Session.

Import Store Controller Sample.

Local Open Scope float_scope.

(** The controller standing on panorama A after a commit, about to press
    the up arrow. *)
Definition st_at_A : ctrl :=
  {| move := true; iter := 5; keytopress := ARROW_UP;
     old_lat_long := (lat_A, long_A); chained_fail := 0;
     url := Some (GivenUrl url_A) |}.

(** The controller right after a reseed. *)
Definition st_fresh : ctrl :=
  {| move := false; iter := 0; keytopress := ARROW_UP;
     old_lat_long := (0, 0); chained_fail := 0;
     url := Some (GivenUrl url_A) |}.

(** The key press changes nothing: the page still shows A.  The frontier
    is empty.  The reload shows B, and the next read A again. *)
Definition w_stall : world :=
  {| database := {| to_insert := []; panoids := [row_A] |};
     feed := [Some url_A; Some url_B; Some url_B; Some url_A];
     pressed := []; plans := [] |}.

(** The key press leads out of the fence. *)
Definition w_out : world :=
  {| database := {| to_insert := [cand_3]; panoids := [row_A] |};
     feed := [Some url_far; Some url_B; Some url_B];
     pressed := []; plans := [] |}.

(** The page shows B and the database cannot be reached three times in a
    row; then it can, and the reload shows A. *)
Definition w_rejecting : world :=
  {| database := {| to_insert := [cand_3]; panoids := [] |};
     feed := [Some url_B; Some url_B; Some url_B; Some url_A; Some url_A];
     pressed := [];
     plans := [fault_at Connect; fault_at Connect; fault_at Connect] |}.

(** Two rejections already counted; the page shows B and the database
    cannot be reached once more. *)
Definition st_two_fails : ctrl :=
  {| move := true; iter := 0; keytopress := ARROW_UP;
     old_lat_long := (0, 0); chained_fail := 2;
     url := Some (GivenUrl url_A) |}.

Definition w_third_rejection : world :=
  {| database := {| to_insert := [cand_3]; panoids := [] |};
     feed := [Some url_B; Some url_A; Some url_A];
     pressed := [];
     plans := [fault_at Connect] |}.



(** A page address with coordinates and no pano id. *)
Definition url_no_pano : string :=
  "https://www.google.com/maps/@48.6738246,6.1744465,17z".

End Session.

(** ** The maintenance functions of the database (source lines 309-347,
    759-865) *)

Module Cleanup.

Import Store.

(** The statements of [delete_close_points_from_to_insert] that the
    database can fail, in program order: the count of the dry run, and the
    [DELETE], its commit and the count of what remains of the real run. *)
Inductive cleanup_op : Type :=
| CleanConnect
| ExecCount
| ExecDeleteClose
| CommitDelete
| ExecRemaining.

Definition cleanup_plan : Type := cleanup_op -> bool.

Definition clean_run : cleanup_plan := fun _ => false.

(** A statement that raises when its plan says so. *)
Definition fails (b : bool) : M conn unit :=
  if b then raise DatabaseError else ret tt.

Section Queries.

Context {gis : PostGIS}.

(** The [geom] column of a [panoids] row. *)
Definition panoid_geom (p : panoid_row) : point :=
  (p_longitude p, p_latitude p).

(** [EXISTS (SELECT 1 FROM panoids p WHERE ST_DWithin(ti.geom::geography,
    p.geom::geography, %s))] for the frontier row [r]. *)
Definition near_a_panoid (threshold : float) (ps : list panoid_row)
  (r : frontier_row) : bool :=
  match geom r with
  | Some g => existsb (fun p => ST_DWithin g (panoid_geom p) threshold) ps
  | None => false
  end.

(** [SELECT COUNT] of the rows the [EXISTS] clause keeps. *)
Definition count_close (threshold : float) : M conn nat :=
  fun c =>
    (inr (List.length
            (filter (near_a_panoid threshold (panoids (pending c)))
               (to_insert (pending c)))), c).

(** [DELETE FROM to_insert WHERE EXISTS (...)]; returns
    [cursor.rowcount]. *)
Definition delete_close (threshold : float) : M conn nat :=
  fun c =>
    let ps := panoids (pending c) in
    let rows := to_insert (pending c) in
    (inr (List.length (filter (near_a_panoid threshold ps) rows)),
     {| committed := committed c;
        pending := {| to_insert :=
                        filter (fun r => negb (near_a_panoid threshold ps r)) rows;
                      panoids := ps |} |}).

(** [cursor.execute(sample_query, (distance_threshold_m,))] of the dry
    run: the query text has two placeholders and the call passes one
    parameter, so psycopg2 raises before anything reaches the database. *)
Definition execute_sample_query : M conn unit := raise IndexError.

(** The body of the [try] block, after the connection is open.  The count
    of the dry run and the count of the remaining rows only feed
    [print]. *)
Definition delete_close_try (pl : cleanup_plan) (threshold : float)
  (dry_run : bool) : M conn nat :=
  if dry_run then
    fails (pl ExecCount) ;;;
    count <- count_close threshold ;;
    execute_sample_query ;;;
    ret count
  else
    fails (pl ExecDeleteClose) ;;;
    deleted_count <- delete_close threshold ;;
    fails (pl CommitDelete) ;;;
    (fun c => (inr tt, {| committed := pending c; pending := pending c |})) ;;;
    fails (pl ExecRemaining) ;;;
    ret deleted_count.

(** [delete_close_points_from_to_insert(distance_threshold_m, dry_run)] on
    the database [d]: [except Exception] rolls back and returns 0;
    [finally] closes the connection. *)
Definition delete_close_points_from_to_insert (pl : cleanup_plan) (d : db)
  (distance_threshold_m : float) (dry_run : bool) : nat * db :=
  if pl CleanConnect then (0%nat, d)
  else
    match delete_close_try pl distance_threshold_m dry_run (connect d) with
    | (inr n, c) => (n, close c)
    | (inl _, c) => (0%nat, close (rollback c))
    end.

End Queries.

(** [get_table_counts()]: the two [SELECT COUNT] results, or
    [(None, None)] when connecting or a query raises ([fault]). *)
Definition get_table_counts (fault : bool) (d : db) : option Z * option Z :=
  if fault then (None, None)
  else (Some (Z.of_nat (List.length (panoids d))),
        Some (Z.of_nat (List.length (to_insert d)))).

End Cleanup.

(** ** Start-up and statistics of [selenium_walkthrough] (source lines
    355-399, 486-496) *)

Module Walkthrough.

Import Store Controller Cleanup.

Section Startup.

Context {gis : PostGIS}.

Local Open Scope float_scope.

(** Lines 377-380: without a [url] argument the first frontier row gives
    one; when there is none [url] stays [None]. *)
Definition starting_url (url : option url_value) : M world (option url_value) :=
  match url with
  | Some _ => ret url
  | None =>
      coordinates <- call_get_starting_coordinates ;;
      ret match coordinates with
          | (Some la, Some lo) => Some (create_streetview_url la lo)
          | _ => None
          end
  end.

(** [driver.get(url)]: the call raises on [None]. *)
Definition driver_get (url : option url_value) : M world unit :=
  match url with
  | Some _ => ret tt
  | None => raise WebDriverException
  end.

(** Lines 355-399, up to the loop: the local variables as the loop first
    sees them.  The keystrokes that answer the consent page go to the page
    body; they are not arrow keys and are not recorded. *)
Definition startup (url : option url_value) : M world ctrl :=
  url' <- starting_url url ;;
  driver_get url' ;;;
  r <- set_url url' ;;
  ret {| move := false; iter := 0; keytopress := ARROW_UP;
         old_lat_long := fst r; chained_fail := snd r; url := url' |}.

(** Start-up followed by [n] passes of the loop.  [None]: an exception
    ended the session before, or a pass left the loop. *)
Definition session (n : nat) (w : world) (url : option url_value)
  : option (list event * ctrl * world) :=
  match startup url w with
  | (inr st, w') => run n w' st
  | (inl _, _) => None
  end.

End Startup.

(** Lines 368-375: the counts taken before the browser starts, with the
    fallback to 0. *)
Definition initial_counts (c : option Z * option Z) : Z * Z :=
  match c with
  | (Some p, Some t) => (p, t)
  | _ => (0, 0)%Z
  end.

(** Lines 490-496: [panoids_added], [to_insert_deleted] and
    [total_operations]; [None] when the final counts could not be read. *)
Definition statistics (initial : Z * Z) (final : option Z * option Z)
  : option (Z * Z * Z) :=
  match final with
  | (Some final_panoids, Some final_to_insert) =>
      let panoids_added := (final_panoids - fst initial)%Z in
      let to_insert_deleted := (snd initial - final_to_insert)%Z in
      Some (panoids_added, to_insert_deleted,
            (panoids_added + to_insert_deleted)%Z)
  | _ => None
  end.

(** The only way the crawl changes the database: rows are appended to
    [panoids] and rows are dropped from [to_insert]. *)
Definition grows (d d' : db) : Prop :=
  (exists added, panoids d' = panoids d ++ added) /\
  (exists keep, to_insert d' = filter keep (to_insert d)).

(** A computation that changes the database of the world only that way,
    however it ends. *)
Definition growing {A : Type} (m : M world A) : Prop :=
  forall w r w', m w = (r, w') -> grows (database w) (database w').

(** A computation that sends no key. *)
Definition silent {A : Type} (m : M world A) : Prop :=
  forall w r w', m w = (r, w') -> pressed w' = pressed w.

(** The frontier query of the next database call gives nothing: the table
    is empty, or the plan of that call makes the query fail. *)
Definition frontier_gives_nothing (w : world) : Prop :=
  to_insert (database w) = [] \/
  (exists pl rest, plans w = pl :: rest /\
                   (pl Connect = true \/ pl ExecSelect = true)).

(** The number of passes that reached the end of the loop body. *)
Definition commits (es : list event) : nat :=
  List.length (filter (fun e => match e with Committed => true | _ => false end) es).

End Walkthrough.

(** ** The addresses the program writes and reads (source lines 69,
    622-633, 665-691) *)

Module Links.

Import UrlParser.

Local Open Scope string_scope.

(** [create_streetview_url(latitude, longitude)] as text: the f-string
    joins the prefix, [str(latitude)], a comma and [str(longitude)]. *)
Definition streetview_url_text (latitude longitude : string) : string :=
  "https://maps.google.com/maps?q=&layer=c&cbll=" ++ latitude ++ "," ++ longitude.

(** The link of the map popups (line 69), from the texts of the three
    columns. *)
Definition street_view_link (lat lon pano_id : string) : string :=
  "https://www.google.com/maps/@" ++ lat ++ "," ++ lon ++
  ",3a,75y,0h,90t/data=!3m4!1e1!3m2!1s" ++ pano_id ++ "!2e0".

(** The character [c] does not occur in [s]. *)
Definition lacks (c : ascii) (s : string) : bool :=
  all_chars (fun x => negb (Ascii.eqb x c)) s.

(** [needle in s] *)
Definition contains (needle s : string) : bool :=
  match search (lit needle) s with
  | Some _ => true
  | None => false
  end.

(** [str.isspace] on a character below 256. *)
Definition is_space (c : ascii) : bool :=
  let n := nat_of_ascii c in
  ((9 <=? n) && (n <=? 13) || (28 <=? n) && (n <=? 32)
   || (n =? 133) || (n =? 160))%nat.

Fixpoint lstrip (s : string) : string :=
  match s with
  | String c s' => if is_space c then lstrip s' else s
  | EmptyString => EmptyString
  end.

Fixpoint rstrip (s : string) : string :=
  match s with
  | String c s' =>
      match rstrip s' with
      | EmptyString => if is_space c then EmptyString else String c EmptyString
      | t => String c t
      end
  | EmptyString => EmptyString
  end.

(** [str.strip()] *)
Definition strip (s : string) : string := rstrip (lstrip s).

(** [get_url_from_clipboard()]: [stdout] is what [xclip] printed, [None]
    when running it raised. *)
Definition get_url_from_clipboard (stdout : option string) : option string :=
  match stdout with
  | Some out =>
      let url := strip out in
      if (contains "google.com/maps" url || contains "google.fr/maps" url)
         && contains "@" url
      then Some url
      else None
  | None => None
  end.

End Links.

(** ** More sample data *)

Module Cases.

Import Store Controller Cleanup Sample Session.

Local Open Scope string_scope.

(** The page shows B, a fresh position inside the fence; nothing fails. *)
Definition w_commit : world :=
  {| database := {| to_insert := [cand_3]; panoids := [] |};
     feed := [Some url_B]; pressed := []; plans := [] |}.

(** The frontier holds a candidate but the query for it fails. *)
Definition w_query_fails : world :=
  {| database := {| to_insert := [cand_3]; panoids := [] |};
     feed := [Some url_A; Some url_A]; pressed := [];
     plans := [fault_at ExecSelect] |}.

(** A short session: the start-up lands on A, the first pass finds B, the
    key press of the second changes nothing and the reload shows A. *)
Definition w_session : world :=
  {| database := {| to_insert := [cand_3; cand_1]; panoids := [] |};
     feed := [Some url_A; Some url_A; Some url_B; Some url_B;
              Some url_A; Some url_A];
     pressed := []; plans := [] |}.

(** A clean-up run in which only the count of the remaining rows fails. *)
Definition count_fails : cleanup_plan :=
  fun op => match op with ExecRemaining => true | _ => false end.

(** What [xclip] prints for a copied address. *)
Definition clipboard_text : string :=
  String " " (url_no_pano ++ String "010" "").

End Cases.

(** * Properties *)

(** ** URL parser *)

Section UrlParserFacts.

Import UrlParser.
Local Open Scope string_scope.

Lemma span_spec (p : ascii -> bool) (s : string) :
  forall a b, span p s = (a, b) ->
    s = a ++ b /\ all_chars p a = true /\ stops p b = true.
Proof.
  induction s as [| c s IH]; simpl; intros a b H.
  - inversion H; subst. auto.
  - destruct (p c) eqn:Hc.
    + destruct (span p s) as [a' b'] eqn:Hs.
      inversion H; subst.
      destruct (IH a' b eq_refl) as (E & Ha & Hb).
      simpl. rewrite Hc, Ha. subst s. auto.
    + inversion H; subst. simpl. rewrite Hc. auto.
Qed.

Lemma span_run (p : ascii -> bool) (a b : string) :
  all_chars p a = true -> stops p b = true -> span p (a ++ b) = (a, b).
Proof.
  induction a as [| c a IH]; simpl; intros Ha Hb.
  - destruct b as [| c b]; simpl in *; [ reflexivity | ].
    apply negb_true_iff in Hb. rewrite Hb. reflexivity.
  - apply andb_true_iff in Ha. destruct Ha as [Hc Ha].
    rewrite Hc, (IH Ha Hb). reflexivity.
Qed.

Lemma plus_spec (p : ascii -> bool) (s a b : string) :
  plus p s = Some (a, b) ->
  s = a ++ b /\ a <> "" /\ all_chars p a = true /\ stops p b = true.
Proof.
  unfold plus. destruct (span p s) as [a' b'] eqn:Hs.
  destruct (span_spec _ _ _ _ Hs) as (E & Ha & Hb).
  destruct a'; intros H; inversion H; subst.
  repeat split; auto. discriminate.
Qed.

Lemma plus_run (p : ascii -> bool) (a b : string) :
  a <> "" -> all_chars p a = true -> stops p b = true ->
  plus p (a ++ b) = Some (a, b).
Proof.
  intros Hne Ha Hb. unfold plus. rewrite (span_run _ _ _ Ha Hb).
  destruct a; [ congruence | reflexivity ].
Qed.

(** A captured number group reads back as the same sign and digits, with
    nothing left over. *)
Lemma number_of_text (s : string) (neg : bool) (ip fp rest : string) :
  number s = Some (neg, ip, fp, rest) ->
  number (number_text neg ip fp) = Some (neg, ip, fp, "").
Proof.
  unfold number.
  set (pre := match s with
              | String c s' => if Ascii.eqb c "-"%char then (true, s') else (false, s)
              | EmptyString => (false, s)
              end).
  destruct pre as [neg0 s1] eqn:Hpre.
  destruct (plus is_digit s1) as [[ip0 s2] |] eqn:Hip; [ | discriminate ].
  destruct (lit "." s2) as [s3 |] eqn:Hdot; [ | discriminate ].
  destruct (plus is_digit s3) as [[fp0 s4] |] eqn:Hfp; [ | discriminate ].
  intros H; inversion H; subst neg0 ip0 fp0 s4. clear H.
  destruct (plus_spec _ _ _ _ Hip) as (_ & Hne1 & Hd1 & _).
  destruct (plus_spec _ _ _ _ Hfp) as (_ & Hne2 & Hd2 & _).
  assert (Hrun1 : plus is_digit (ip ++ "." ++ fp) = Some (ip, "." ++ fp)).
  { apply plus_run; auto. }
  assert (Hrun2 : plus is_digit fp = Some (fp, "")).
  { rewrite <- (plus_run is_digit fp "" Hne2 Hd2 eq_refl) at 1.
    f_equal. clear. induction fp; simpl; congruence. }
  unfold number_text. destruct neg; simpl.
  - change (ip ++ String "." fp) with (ip ++ "." ++ fp).
    rewrite Hrun1. simpl. rewrite Hrun2. reflexivity.
  - destruct ip as [| c ip]; [ congruence | ]. simpl.
    assert (Hc : Ascii.eqb c "-"%char = false).
    { simpl in Hd1. apply andb_true_iff in Hd1. destruct Hd1 as [Hc _].
      destruct (Ascii.eqb_spec c "-"%char) as [-> |]; [ discriminate | reflexivity ]. }
    rewrite Hc.
    change (String c (ip ++ String "." fp)) with (String c ip ++ "." ++ fp).
    rewrite Hrun1. simpl. rewrite Hrun2. reflexivity.
Qed.

Lemma py_float_of_number (s : string) (neg : bool) (ip fp rest : string) :
  number s = Some (neg, ip, fp, rest) ->
  py_float (number_text neg ip fp) = Some (decimal_to_float neg ip fp).
Proof.
  intros H. unfold py_float. rewrite (number_of_text _ _ _ _ _ H). reflexivity.
Qed.

Lemma search_some {A : Type} (m : string -> option A) (s : string) (r : A) :
  search m s = Some r -> exists t, m t = Some r.
Proof.
  induction s as [| c s IH]; simpl.
  - destruct (m "") eqn:E; [ | discriminate ]. intros H. inversion H; subst. eauto.
  - destruct (m (String c s)) eqn:E.
    + intros H. inversion H; subst. eauto.
    + exact IH.
Qed.

(** [float()] accepts both groups of any match of the coordinate pattern. *)
Lemma lat_lon_groups_convert (url g1 g2 : string) :
  search lat_lon_at url = Some (g1, g2) ->
  exists la lo, py_float g1 = Some la /\ py_float g2 = Some lo.
Proof.
  intros H. apply search_some in H. destruct H as [t H].
  unfold lat_lon_at in H.
  destruct (lit "/@" t) as [s1 |]; [ | discriminate ].
  destruct (number s1) as [[[[n1 i1] f1] s2] |] eqn:N1; [ | discriminate ].
  destruct (lit "," s2) as [s3 |]; [ | discriminate ].
  destruct (number s3) as [[[[n2 i2] f2] s4] |] eqn:N2; [ | discriminate ].
  destruct (lit "," s4); [ | discriminate ].
  inversion H; subst.
  rewrite (py_float_of_number _ _ _ _ _ N1), (py_float_of_number _ _ _ _ _ N2).
  eauto.
Qed.

(** The [try] block never raises on a string: the [except] branch of
    [parse_google_maps_url] is not taken. *)
Lemma parse_body_returns (url : string) :
  parse_body url = inr (parse_google_maps_url url).
Proof.
  unfold parse_google_maps_url, parse_body.
  destruct (search lat_lon_at url) as [[g1 g2] |] eqn:H; [ | reflexivity ].
  destruct (lat_lon_groups_convert _ _ _ H) as (la & lo & -> & ->).
  destruct (search panoid_at url); [ reflexivity | ].
  destruct (search pano3m5_at url); reflexivity.
Qed.

(** C10. For every string, [parse_google_maps_url] returns a triple and the
    body of its [try] raises nothing; without a match of the coordinate
    pattern the triple is [(None, None, None)]; a pano id never comes with
    a missing latitude or longitude; and with coordinates but no pano id
    the triple is [(latitude, longitude, None)]. *)
Theorem parse_google_maps_url_total (url : string) :
  parse_body url = inr (parse_google_maps_url url) /\
  (search lat_lon_at url = None ->
   parse_google_maps_url url = (None, None, None)) /\
  (forall lat long pano_id,
     parse_google_maps_url url = (lat, long, Some pano_id) ->
     lat <> None /\ long <> None) /\
  (forall g1 g2,
     search lat_lon_at url = Some (g1, g2) ->
     search panoid_at url = None ->
     search pano3m5_at url = None ->
     exists latitude longitude,
       py_float g1 = Some latitude /\ py_float g2 = Some longitude /\
       parse_google_maps_url url = (Some latitude, Some longitude, None)).
Proof.
  split; [ apply parse_body_returns | ].
  split; [ | split ].
  - intros H. unfold parse_google_maps_url, parse_body. rewrite H. reflexivity.
  - intros lat long pano_id.
    unfold parse_google_maps_url, parse_body.
    destruct (search lat_lon_at url) as [[g1 g2] |]; [ | discriminate ].
    destruct (py_float g1); [ | discriminate ].
    destruct (py_float g2); [ | discriminate ].
    destruct (search panoid_at url);
      [ | destruct (search pano3m5_at url) ];
      intros H; inversion H; subst; split; discriminate.
  - intros g1 g2 H Hp1 Hp2.
    destruct (lat_lon_groups_convert _ _ _ H) as (la & lo & E1 & E2).
    exists la, lo. repeat split; auto.
    unfold parse_google_maps_url, parse_body.
    rewrite H, E1, E2, Hp1, Hp2. reflexivity.
Qed.

End UrlParserFacts.

(** ** The database functions *)

Section StoreFacts.

Import Store.
Context {gis : PostGIS}.

Lemma nearest_In (q : point) (rs : list frontier_row) :
  forall best, In (nearest q best rs) (best :: rs).
Proof.
  induction rs as [| r rs IH]; intros best; simpl.
  - auto.
  - destruct (IH (if closer q r best then r else best)) as [H | H].
    + destruct (closer q r best); rewrite <- H; auto.
    + auto.
Qed.

Lemma select_nearest_some (q : point) (fr : list frontier_row) (n : frontier_row) :
  select_nearest (Some q) fr = Some n -> In n fr /\ in_range q n = true.
Proof.
  unfold select_nearest.
  destruct (filter (in_range q) fr) as [| r rs] eqn:E; [ discriminate | ].
  intros H. inversion H; subst. apply filter_In. rewrite E. apply nearest_In.
Qed.

Lemma select_nearest_none (q : point) (fr : list frontier_row) :
  select_nearest (Some q) fr = None <->
  forall r, In r fr -> in_range q r = false.
Proof.
  unfold select_nearest. split.
  - destruct (filter (in_range q) fr) as [| r0 rs] eqn:E; [ | discriminate ].
    intros _ r Hr. destruct (in_range q r) eqn:Hq; [ | reflexivity ].
    assert (Hin : In r (filter (in_range q) fr)) by (apply filter_In; auto).
    rewrite E in Hin. destruct Hin.
  - intros H. destruct (filter (in_range q) fr) as [| r0 rs] eqn:E; [ reflexivity | ].
    assert (Hin : In r0 (filter (in_range q) fr)) by (rewrite E; left; reflexivity).
    apply filter_In in Hin. destruct Hin as [Hin Hq].
    rewrite (H r0 Hin) in Hq. discriminate.
Qed.

Lemma same_coordinates_refl (r : frontier_row) :
  same_coordinates (latitude r) (longitude r) r = true.
Proof. unfold same_coordinates. rewrite !Z.eqb_refl. reflexivity. Qed.

(** The prune block of [insert_db], run without a fault, is [PruneNear] on
    the frontier the transaction sees. *)
Lemma prune_nearest_no_fault (pl : plan) (lat long : float) (c : conn) :
  pl ExecSelect = false -> pl ExecDelete = false ->
  prune_nearest pl (Some lat) (Some long) c =
  (inr (snd (PruneNear (to_insert (pending c)) lat long)),
   {| committed := committed c;
      pending := {| to_insert := fst (PruneNear (to_insert (pending c)) lat long);
                    panoids := panoids (pending c) |} |}).
Proof.
  intros Hs Hd.
  unfold prune_nearest, find_nearest_query, delete_query, guard, bind, PruneNear.
  rewrite Hs. cbn [make_point ret raise].
  destruct (select_nearest (Some (long, lat)) (to_insert (pending c))) as [n |];
    cbn [option_map format_6f ret fst snd].
  - rewrite Hd. reflexivity.
  - destruct c as [cm [ti pa]]. reflexivity.
Qed.

(** A call in which no statement fails. *)
Lemma insert_db_no_fault (d : db) (lat long : float) (pano_id : option string) :
  insert_db no_fault d (Some lat) (Some long) pano_id =
  (Returned true,
   {| to_insert := fst (PruneNear (to_insert d) lat long);
      panoids := panoids d ++
        [{| p_latitude := lat; p_longitude := long; p_pano_id := pano_id |}] |}).
Proof.
  unfold insert_db, insert_db_try. cbn [no_fault].
  unfold bind at 1. rewrite prune_nearest_no_fault by reflexivity.
  reflexivity.
Qed.

(** A call in which only the [INSERT] fails. *)
Lemma insert_db_insert_fault (d : db) (lat long : float) (pano_id : option string) :
  insert_db (fault_at ExecInsert) d (Some lat) (Some long) pano_id =
  (Returned false,
   {| to_insert := fst (PruneNear (to_insert d) lat long);
      panoids := panoids d |}).
Proof.
  unfold insert_db, insert_db_try. cbn [fault_at db_op_eqb].
  unfold bind at 1. rewrite prune_nearest_no_fault by reflexivity.
  reflexivity.
Qed.

(** A call that cannot connect returns [False] and changes nothing. *)
Lemma insert_db_connect_fault (pl : plan) (d : db) (lat long : option float)
  (pano_id : option string) :
  pl Connect = true -> insert_db pl d lat long pano_id = (Returned false, d).
Proof. intros H. unfold insert_db. rewrite H. reflexivity. Qed.

(** With both coordinates present, [insert_db] answers [False] only when
    a statement fails: nothing in it looks at [panoids]. *)
Lemma insert_db_rejects_only_on_fault (pl : plan) (d d' : db)
  (lat long : float) (pano_id : option string) :
  insert_db pl d (Some lat) (Some long) pano_id = (Returned false, d') ->
  exists op, pl op = true.
Proof.
  destruct (pl Connect) eqn:H0; [ eauto | ].
  destruct (pl ExecSelect) eqn:H1; [ eauto | ].
  destruct (pl ExecDelete) eqn:H2; [ eauto | ].
  destruct (pl Commit1) eqn:H3; [ eauto | ].
  destruct (pl ExecInsert) eqn:H4; [ eauto | ].
  destruct (pl Commit2) eqn:H5; [ eauto | ].
  unfold insert_db, insert_db_try. rewrite H0.
  unfold bind at 1. rewrite prune_nearest_no_fault by assumption.
  unfold commit, insert_query, guard, bind. rewrite H3, H4, H5.
  cbn. discriminate.
Qed.

(** No call adds a row to the frontier. *)
Lemma insert_db_empty_frontier (pl : plan) (d : db) (lat long : option float)
  (pano_id : option string) :
  to_insert d = [] -> to_insert (snd (insert_db pl d lat long pano_id)) = [].
Proof.
  intros E. unfold insert_db.
  destruct (pl Connect); [ exact E | ].
  unfold insert_db_try, prune_nearest, find_nearest_query, commit,
    insert_query, guard, bind.
  destruct (pl ExecSelect); [ exact E | ].
  cbn [ret raise connect pending committed]. rewrite E.
  assert (Hn : select_nearest (make_point long lat) [] = None)
    by (unfold select_nearest; destruct (make_point long lat); reflexivity).
  rewrite Hn. cbn [option_map].
  unfold format_6f.
  destruct lat, long; cbn [ret raise]; try exact E.
  destruct (pl Commit1); cbn [ret raise]; [ exact E | ].
  destruct (pl ExecInsert); cbn [ret raise]; [ exact E | ].
  destruct (pl Commit2); cbn [ret raise]; exact E.
Qed.

(** C2 (amended). [insert_db] runs two transactions, the prune first and
    the insert second.  A statement that fails up to the first commit
    leaves the database as it was; one that fails after it leaves the
    frontier pruned and [panoids] as it was; in both cases the call
    returns [False].  It returns [True] when nothing fails, with the
    frontier pruned and one row added to [panoids]. *)
Theorem insert_db_two_transactions (pl : plan) (d : db) (lat long : float)
  (pano_id : option string) :
  let pruned := fst (PruneNear (to_insert d) lat long) in
  let found :=
    match select_nearest (Some (long, lat)) (to_insert d) with
    | Some _ => true
    | None => false
    end in
  insert_db pl d (Some lat) (Some long) pano_id =
    if pl Connect || pl ExecSelect || (found && pl ExecDelete) || pl Commit1
    then (Returned false, d)
    else if pl ExecInsert || pl Commit2
    then (Returned false, {| to_insert := pruned; panoids := panoids d |})
    else (Returned true,
          {| to_insert := pruned;
             panoids := panoids d ++
               [{| p_latitude := lat; p_longitude := long;
                   p_pano_id := pano_id |}] |}).
Proof.
  cbv zeta. unfold insert_db.
  destruct (pl Connect) eqn:H0; [ reflexivity | ]. cbn [orb].
  unfold insert_db_try, prune_nearest, find_nearest_query, delete_query,
    commit, insert_query, guard, bind, PruneNear.
  destruct (pl ExecSelect) eqn:H1; [ reflexivity | ].
  cbn [orb ret raise connect pending committed make_point].
  destruct (select_nearest (Some (long, lat)) (to_insert d)) as [n |];
    cbn [option_map andb orb format_6f ret raise fst].
  - destruct (pl ExecDelete) eqn:H2; cbn [orb ret raise]; [ reflexivity | ].
    destruct (pl Commit1) eqn:H3; cbn [orb ret raise]; [ reflexivity | ].
    destruct (pl ExecInsert) eqn:H4; cbn [orb ret raise]; [ reflexivity | ].
    destruct (pl Commit2) eqn:H5; cbn [orb ret raise]; reflexivity.
  - destruct d as [ti pa].
    destruct (pl Commit1) eqn:H3; cbn [orb ret raise]; [ reflexivity | ].
    destruct (pl ExecInsert) eqn:H4; cbn [orb ret raise]; [ reflexivity | ].
    destruct (pl Commit2) eqn:H5; cbn [orb ret raise]; reflexivity.
Qed.
(** C3 (amended). [PruneNear] removes exactly the rows that carry the
    latitude and longitude of the one candidate selected as nearest within
    30 m, and nothing when no candidate is within 30 m; its count is zero
    exactly when no candidate is within 30 m of the point. *)
Theorem PruneNear_removes_nearest_only (fr : list frontier_row) (lat long : float) :
  (snd (PruneNear fr lat long) = 0%nat <->
   forall r, In r fr -> in_range (long, lat) r = false) /\
  match select_nearest (Some (long, lat)) fr with
  | Some n =>
      In n fr /\ in_range (long, lat) n = true /\
      (forall r, In r (fst (PruneNear fr lat long)) <->
                 In r fr /\ same_coordinates (latitude n) (longitude n) r = false)
  | None => PruneNear fr lat long = (fr, 0%nat)
  end.
Proof.
  unfold PruneNear.
  destruct (select_nearest (Some (long, lat)) fr) as [n |] eqn:E.
  - destruct (select_nearest_some _ _ _ E) as [Hin Hq].
    split; [ | split; [ exact Hin | split; [ exact Hq | ] ] ].
    + cbn [snd]. split.
      * intros H0.
        assert (Hn : In n (filter (same_coordinates (latitude n) (longitude n)) fr)).
        { apply filter_In. split; [ exact Hin | apply same_coordinates_refl ]. }
        destruct (filter (same_coordinates (latitude n) (longitude n)) fr);
          [ destruct Hn | discriminate ].
      * intros H. rewrite (H n Hin) in Hq. discriminate.
    + intros r. cbn [fst]. rewrite filter_In, negb_true_iff. reflexivity.
  - split; [ | reflexivity ]. cbn [snd].
    split; [ intros _ | reflexivity ].
    apply select_nearest_none. exact E.
Qed.

(** [get_starting_coordinates] never changes the database. *)
Lemma get_starting_coordinates_db (pl : plan) (d : db) :
  snd (get_starting_coordinates pl d) = d.
Proof.
  unfold get_starting_coordinates.
  destruct (pl Connect || pl ExecSelect); [ reflexivity | ].
  destruct (to_insert d); reflexivity.
Qed.

(** Without a fault it answers [(None, None)] exactly on an empty
    frontier. *)
Lemma get_starting_coordinates_none (d : db) :
  fst (get_starting_coordinates no_fault d) = (None, None) <-> to_insert d = [].
Proof.
  unfold get_starting_coordinates. cbn [no_fault orb].
  destruct (to_insert d); cbn [fst]; split; intros H;
    try reflexivity; discriminate.
Qed.

End StoreFacts.

(** ORDER BY: when [<->] orders the points by a strict weak order, no
    candidate of the range sorts strictly before the selected one. *)
Section Nearest.

Import Store.
Context {gis : PostGIS}.
Hypothesis knn_lt_asym :
  forall q a b, knn_lt q a b = true -> knn_lt q b a = false.
Hypothesis knn_lt_negtrans :
  forall q a b c, knn_lt q a c = true ->
                  knn_lt q a b = true \/ knn_lt q b c = true.

Lemma closer_asym (q : point) (a b : frontier_row) :
  closer q a b = true -> closer q b a = false.
Proof.
  unfold closer. destruct (geom a), (geom b); try discriminate.
  apply knn_lt_asym.
Qed.

Lemma closer_negtrans (q : point) (a b c : frontier_row) :
  geom b <> None -> closer q a c = true ->
  closer q a b = true \/ closer q b c = true.
Proof.
  unfold closer. intros Hb.
  destruct (geom a), (geom b), (geom c); try discriminate; try congruence.
  apply knn_lt_negtrans.
Qed.

Lemma nearest_least (q : point) (rs : list frontier_row) :
  forall best,
    (forall r, In r (best :: rs) -> geom r <> None) ->
    forall r, In r (best :: rs) -> closer q r (nearest q best rs) = false.
Proof.
  induction rs as [| r0 rs IH]; intros best Hg r Hr.
  - destruct Hr as [<- | []]. cbn [nearest].
    destruct (closer q best best) eqn:E; [ | reflexivity ].
    rewrite (closer_asym _ _ _ E) in E. discriminate.
  - cbn [nearest].
    destruct (closer q r0 best) eqn:Hc.
    + (* r0 takes over *)
      assert (Hg' : forall x, In x (r0 :: rs) -> geom x <> None)
        by (intros x Hx; apply Hg; right; exact Hx).
      destruct Hr as [<- | Hr]; [ | apply (IH r0 Hg' r Hr) ].
      destruct (closer q best (nearest q r0 rs)) eqn:E; [ | reflexivity ].
      destruct (closer_negtrans q best r0 _ (Hg' r0 (or_introl eq_refl)) E) as [H | H].
      * rewrite (closer_asym _ _ _ Hc) in H. discriminate.
      * rewrite (IH r0 Hg' r0 (or_introl eq_refl)) in H. discriminate.
    + (* best stays *)
      assert (Hg' : forall x, In x (best :: rs) -> geom x <> None).
      { intros x [<- | Hx]; apply Hg; [ left | right; right ]; auto. }
      destruct Hr as [E1 | [E1 | Hr]].
      * subst r. apply (IH best Hg'). left. reflexivity.
      * subst r.
        destruct (closer q r0 (nearest q best rs)) eqn:E; [ | reflexivity ].
        destruct (closer_negtrans q r0 best _ (Hg' best (or_introl eq_refl)) E)
          as [H | H].
        -- congruence.
        -- rewrite (IH best Hg' best (or_introl eq_refl)) in H. discriminate.
      * apply (IH best Hg'). right. exact Hr.
Qed.

Lemma select_nearest_least (q : point) (fr : list frontier_row) (n : frontier_row) :
  select_nearest (Some q) fr = Some n ->
  forall r, In r fr -> in_range q r = true -> closer q r n = false.
Proof.
  unfold select_nearest.
  destruct (filter (in_range q) fr) as [| r0 rs] eqn:E; [ discriminate | ].
  intros H r Hr Hq. inversion H; subst n.
  apply nearest_least.
  - intros x Hx. rewrite <- E in Hx. apply filter_In in Hx.
    destruct Hx as [_ Hx]. unfold in_range in Hx.
    destruct (geom x); [ discriminate | discriminate ].
  - rewrite <- E. apply filter_In. auto.
Qed.

End Nearest.

Section PlanarFacts.

Import Store Planar.

(** The flat stand-in orders points by an integer, which is such an
    order. *)
Lemma planar_select_nearest_least (q : point) (fr : list frontier_row)
  (n : frontier_row) :
  select_nearest (Some q) fr = Some n ->
  forall r, In r fr -> in_range q r = true -> closer q r n = false.
Proof.
  apply select_nearest_least; simpl; unfold planar_knn_lt.
  - intros p a b H. apply Z.ltb_ge. apply Z.ltb_lt in H. lia.
  - intros p a b c H. apply Z.ltb_lt in H.
    destruct (Z.ltb_spec (dist2 a p) (dist2 b p)) as [Hab | Hba]; [ auto | ].
    right. apply Z.ltb_lt. lia.
Qed.

End PlanarFacts.

Section StoreRuns.

Import Store Sample.
Context {gis : PostGIS}.

(** Two commits of one position are both accepted, whatever the database
    held before. *)
Lemma insert_db_twice (d : db) (lat long : float) (pano_id : option string) :
  exists d1 d2,
    insert_db no_fault d (Some lat) (Some long) pano_id = (Returned true, d1) /\
    insert_db no_fault d1 (Some lat) (Some long) pano_id = (Returned true, d2) /\
    panoids d2 = panoids d ++
      [{| p_latitude := lat; p_longitude := long; p_pano_id := pano_id |};
       {| p_latitude := lat; p_longitude := long; p_pano_id := pano_id |}].
Proof.
  eexists. eexists.
  split; [ apply insert_db_no_fault | ].
  split; [ apply insert_db_no_fault | ].
  cbn [panoids]. rewrite <- app_assoc. reflexivity.
Qed.

(** C1. With no statement failing, [insert_db] accepts the panorama of the
    first line of the source twice in a row: both calls return [True] and
    [panoids] ends with two rows at the same position. *)
Theorem insert_db_stores_same_point_twice :
  insert_db no_fault empty_db (Some lat_A) (Some long_A) (Some pano_A) =
    (Returned true, {| to_insert := []; panoids := [row_A] |}) /\
  insert_db no_fault {| to_insert := []; panoids := [row_A] |}
    (Some lat_A) (Some long_A) (Some pano_A) =
    (Returned true, {| to_insert := []; panoids := [row_A; row_A] |}).
Proof. split; rewrite insert_db_no_fault; reflexivity. Qed.

(** C4. On a frontier of two candidates [get_starting_coordinates] returns
    the first one and leaves both in [to_insert]; asked again, it returns
    the same candidate. *)
Theorem get_starting_coordinates_keeps_candidate :
  get_starting_coordinates no_fault {| to_insert := [cand_1; cand_3]; panoids := [] |} =
    ((Some (latitude cand_1), Some (longitude cand_1)),
     {| to_insert := [cand_1; cand_3]; panoids := [] |}) /\
  fst (get_starting_coordinates no_fault
         (snd (get_starting_coordinates no_fault
                 {| to_insert := [cand_1; cand_3]; panoids := [] |}))) =
    (Some (latitude cand_1), Some (longitude cand_1)).
Proof. split; reflexivity. Qed.

End StoreRuns.

Section PlanarRuns.

Import Store Planar Sample.

(** C2 (counterexample). The frontier holds a candidate one metre from
    the panorama and the [INSERT] fails: [insert_db] returns [False], no
    row reaches [panoids], and the candidate is gone from [to_insert] all
    the same. *)
Lemma insert_db_failed_insert_keeps_prune :
  insert_db (fault_at ExecInsert)
    {| to_insert := [cand_1; cand_3]; panoids := [] |}
    (Some lat_A) (Some long_A) (Some pano_A) =
  (Returned false, {| to_insert := [cand_3]; panoids := [] |}).
Proof. vm_compute. reflexivity. Qed.

(** C3 (counterexample). Two candidates lie within 30 m of the point: the
    first prune removes one of them and leaves the other, still within
    30 m, and the second prune with the same arguments removes that one:
    its count is 1, not 0. *)
Lemma PruneNear_twice_removes_twice :
  PruneNear [cand_1; cand_2; cand_3] lat_A long_A = ([cand_2; cand_3], 1%nat) /\
  in_range (long_A, lat_A) cand_2 = true /\
  PruneNear (fst (PruneNear [cand_1; cand_2; cand_3] lat_A long_A)) lat_A long_A =
    ([cand_3], 1%nat).
Proof. repeat split; vm_compute; reflexivity. Qed.

End PlanarRuns.

(** ** The controller *)

Section ControllerFacts.

Import Store Controller.
Context {gis : PostGIS}.
Local Open Scope Z_scope.

(** Splits the next [match] of a hypothesis that computes a result. *)
Ltac split_match H :=
  match type of H with
  | context [match ?x with _ => _ end] => destruct x eqn:?; try discriminate H
  end.

Lemma set_url_returns (u : option url_value) (w w' : world)
  (r : (float * float) * Z) :
  set_url u w = (inr r, w') -> r = ((0, 0)%float, 0).
Proof.
  unfold set_url. destruct u; [ | discriminate ].
  unfold bind. intros H.
  repeat split_match H.
  all: inversion H; reflexivity.
Qed.

Lemma reseed_returns (u u' : option url_value) (w w' : world)
  (old : float * float) (fails : Z) :
  reseed u w = (inr (u', old, fails), w') ->
  old = (0, 0)%float /\ fails = 0.
Proof.
  unfold reseed, bind. intros H.
  destruct (call_get_starting_coordinates w) as [[e | c] w1]; [ discriminate | ].
  match type of H with
  | context [set_url ?x w1] => destruct (set_url x w1) as [[e | r] w2] eqn:E
  end; [ discriminate | ].
  apply set_url_returns in E. subst r. inversion H. auto.
Qed.

(** How each branch of the loop body leaves the local variables; the
    three recovery branches end by running [reseed]. *)
Lemma loop_body_continue (w w' : world) (st st' : ctrl) (e : event) :
  loop_body w st = (Continue e st', w') ->
  match e with
  | Stalled =>
      (exists w1, reseed (url st) w1 = (inr (url st', (0, 0)%float, 0), w')) /\
      st' = {| move := false; iter := iter st + 1; keytopress := keytopress st;
               old_lat_long := (0, 0)%float; chained_fail := 0;
               url := url st' |}
  | OutOfBounds =>
      (exists w1, reseed (url st) w1 = (inr (url st', (0, 0)%float, 0), w')) /\
      st' = {| move := false; iter := iter st; keytopress := keytopress st;
               old_lat_long := (0, 0)%float; chained_fail := 0;
               url := url st' |}
  | Retry =>
      chained_fail st + 1 <= 2 /\
      st' = {| move := true; iter := iter st; keytopress := keytopress st;
               old_lat_long := old_lat_long st;
               chained_fail := chained_fail st + 1; url := url st |}
  | FailureThreshold =>
      chained_fail st + 1 > 2 /\
      (exists w1, reseed (url st) w1 = (inr (url st', (0, 0)%float, 0), w')) /\
      st' = {| move := false; iter := iter st + 1;
               keytopress := flip_key (keytopress st);
               old_lat_long := (0, 0)%float; chained_fail := 0;
               url := url st' |}
  | Committed =>
      st' = {| move := true; iter := iter st + 1; keytopress := keytopress st;
               old_lat_long := old_lat_long st'; chained_fail := 0;
               url := url st |}
  end.
Proof.
  unfold loop_body, loop_try, bind. intros H.
  destruct ((if move st then send_keys (keytopress st) else ret tt) w)
    as [[x | []] w0]; [ discriminate | ].
  destruct (current_url w0) as [[x | cu] w1]; [ discriminate | ].
  destruct (UrlParser.parse_google_maps_url cu) as [[lat long] pano].
  destruct (same_position lat long (old_lat_long st)).
  - destruct (reseed (url st) w1) as [[x | [[u' old'] f']] w2] eqn:R;
      [ discriminate | ].
    destruct (reseed_returns _ _ _ _ _ _ R) as [-> ->].
    cbn in H. inversion H; subst. split; [ eauto | reflexivity ].
  - destruct lat as [la |]; [ | cbn in H; discriminate ].
    destruct long as [lo |]; [ | cbn in H; discriminate ].
    destruct pano as [p |]; [ | cbn in H; discriminate ].
    destruct (negb (Geofence.in_nancy la lo)).
    + destruct (reseed (url st) w1) as [[x | [[u' old'] f']] w2] eqn:R;
        [ discriminate | ].
      destruct (reseed_returns _ _ _ _ _ _ R) as [-> ->].
      cbn in H. inversion H; subst. split; [ eauto | reflexivity ].
    + destruct (call_insert_db (Some la) (Some lo) (Some p) w1)
        as [[x | ok] w2]; [ discriminate | ].
      destruct ok; cbn [negb] in H.
      * cbn in H. inversion H; subst. reflexivity.
      * destruct (chained_fail st + 1 >? 2) eqn:T.
        -- destruct (reseed (url st) w2) as [[x | [[u' old'] f']] w3] eqn:R;
             [ discriminate | ].
           destruct (reseed_returns _ _ _ _ _ _ R) as [-> ->].
           cbn in H. inversion H; subst.
           split; [ apply Z.gtb_lt in T; lia | split; [ eauto | reflexivity ] ].
        -- cbn in H. inversion H; subst. split; [ | reflexivity ].
           rewrite Z.gtb_ltb in T. apply Z.ltb_ge in T. exact T.
Qed.

(** *** Direction *)

(** C5 (amended). A pass that goes on flips [keytopress] exactly when it
    took the failure-threshold branch; the reseeds after a stall and after
    leaving the fence keep the key as it was. *)
Theorem keytopress_flips_only_at_threshold (w w' : world) (st st' : ctrl)
  (e : event) :
  loop_body w st = (Continue e st', w') ->
  keytopress st' =
    match e with
    | FailureThreshold => flip_key (keytopress st)
    | _ => keytopress st
    end.
Proof.
  intros H. apply loop_body_continue in H.
  destruct e; (repeat match type of H with _ /\ _ => destruct H as [_ H] end);
    rewrite H; reflexivity.
Qed.

(** *** The failure counter *)







(** *** The iteration counter *)

Lemma loop_body_iter (w w' : world) (st st' : ctrl) (e : event) :
  loop_body w st = (Continue e st', w') ->
  iter st' =
    match e with
    | Stalled | FailureThreshold | Committed => iter st + 1
    | Retry | OutOfBounds => iter st
    end.
Proof.
  intros H. apply loop_body_continue in H.
  destruct e; (repeat match type of H with _ /\ _ => destruct H as [_ H] end);
    rewrite H; reflexivity.
Qed.

(** C9 (amended). Over a pass that goes on [iter] never decreases; it
    grows by one on a commit, on a stall reseed and on a failure-threshold
    reseed, and stays as it is on a retry. *)
Theorem iter_counts_some_passes (w w' : world) (st st' : ctrl) (e : event) :
  loop_body w st = (Continue e st', w') ->
  iter st <= iter st' /\
  match e with
  | Stalled | FailureThreshold | Committed => iter st' = iter st + 1
  | Retry => iter st' = iter st
  | OutOfBounds => True
  end.
Proof.
  intros H. apply loop_body_iter in H. rewrite H.
  destruct e; split; auto; lia.
Qed.

(** Over any number of passes [iter] never decreases. *)
Lemma iter_monotone (n : nat) :
  forall w st es st' w',
    run n w st = Some (es, st', w') -> iter st <= iter st'.
Proof.
  induction n as [| n IH]; intros w st es st' w' R; cbn [run] in R.
  - inversion R; subst. lia.
  - destruct (loop_body w st) as [[e1 st1 | ] w1] eqn:P1; [ | discriminate ].
    destruct (run n w1 st1) as [[[es1 st2] w2] |] eqn:R1; [ | discriminate ].
    inversion R; subst.
    apply loop_body_iter in P1. apply IH in R1. destruct e1; lia.
Qed.

(** *** An empty frontier *)

Lemma current_url_database (w w' : world) (r : exn + string) :
  current_url w = (r, w') -> database w' = database w.
Proof.
  unfold current_url. destruct (feed w) as [| [u |] rest];
    intros H; inversion H; reflexivity.
Qed.

Lemma call_insert_db_empty_frontier (w w' : world) (lat long : option float)
  (pano_id : option string) (r : exn + bool) :
  to_insert (database w) = [] ->
  call_insert_db lat long pano_id w = (r, w') ->
  to_insert (database w') = [].
Proof.
  intros E. unfold call_insert_db, bind, next_plan.
  destruct (plans w) as [| pl rest]; cbn [database].
  - pose proof (insert_db_empty_frontier no_fault (database w) lat long pano_id E) as P.
    destruct (insert_db no_fault (database w) lat long pano_id) as [[b |] d];
      intros H; inversion H; exact P.
  - pose proof (insert_db_empty_frontier pl (database w) lat long pano_id E) as P.
    destruct (insert_db pl (database w) lat long pano_id) as [[b |] d];
      intros H; inversion H; exact P.
Qed.

(** On an empty frontier the reseed is [set_url] on the url the controller
    already had. *)
Lemma reseed_empty_frontier (u : option url_value) (w : world) :
  to_insert (database w) = [] ->
  reseed u w =
    match set_url u (snd (next_plan w)) with
    | (inr r, w') => (inr (u, fst r, snd r), w')
    | (inl x, w') => (inl x, w')
    end.
Proof.
  intros E. destruct w as [d f k ps]. cbn in E.
  unfold reseed, call_get_starting_coordinates, bind, next_plan,
    get_starting_coordinates.
  destruct ps as [| pl rest]; cbn [plans database feed pressed snd];
    rewrite E.
  - cbn. destruct (set_url u _) as [[x | r] w']; reflexivity.
  - destruct (pl Connect || pl ExecSelect); cbn;
      destruct (set_url u _) as [[x | r] w']; reflexivity.
Qed.

(** C7 (amended). With an empty frontier the reseed keeps the previous
    url and reloads it with [set_url], and a pass that goes on leaves [url]
    as it was: the empty frontier by itself does not end the loop. *)
Theorem empty_frontier_keeps_url (w : world) (st : ctrl) :
  to_insert (database w) = [] ->
  (forall u,
     reseed u w =
       match set_url u (snd (next_plan w)) with
       | (inr r, w') => (inr (u, fst r, snd r), w')
       | (inl x, w') => (inl x, w')
       end) /\
  (forall e st' w', loop_body w st = (Continue e st', w') -> url st' = url st).
Proof.
  intros E. split; [ intros u; apply reseed_empty_frontier; exact E | ].
  intros e st' w'. unfold loop_body, loop_try, bind. intros H.
  destruct ((if move st then send_keys (keytopress st) else ret tt) w)
    as [[x | []] w0] eqn:K; [ discriminate | ].
  assert (E0 : to_insert (database w0) = []).
  { destruct (move st); cbv [send_keys ret] in K; inversion K; subst;
      exact E. }
  destruct (current_url w0) as [[x | cu] w1] eqn:C; [ discriminate | ].
  assert (E1 : to_insert (database w1) = []).
  { rewrite (current_url_database _ _ _ C). exact E0. }
  destruct (UrlParser.parse_google_maps_url cu) as [[lat long] pano].
  destruct (same_position lat long (old_lat_long st)).
  - rewrite (reseed_empty_frontier _ _ E1) in H.
    destruct (set_url (url st) _) as [[x | r] w2]; [ discriminate | ].
    cbn in H. inversion H; reflexivity.
  - destruct lat as [la |]; [ | cbn in H; discriminate ].
    destruct long as [lo |]; [ | cbn in H; discriminate ].
    destruct pano as [p |]; [ | cbn in H; discriminate ].
    destruct (negb (Geofence.in_nancy la lo)).
    + rewrite (reseed_empty_frontier _ _ E1) in H.
      destruct (set_url (url st) _) as [[x | r] w2]; [ discriminate | ].
      cbn in H. inversion H; reflexivity.
    + destruct (call_insert_db (Some la) (Some lo) (Some p) w1)
        as [[x | ok] w2] eqn:I; [ discriminate | ].
      pose proof (call_insert_db_empty_frontier _ _ _ _ _ _ E1 I) as E2.
      destruct ok; cbn [negb] in H.
      * cbn in H. inversion H; reflexivity.
      * destruct (chained_fail st + 1 >? 2).
        -- rewrite (reseed_empty_frontier _ _ E2) in H.
           destruct (set_url (url st) _) as [[x | r] w3]; [ discriminate | ].
           cbn in H. inversion H; reflexivity.
        -- cbn in H. inversion H; reflexivity.
Qed.

End ControllerFacts.

(** ** Runs on the sample sessions *)

Section SessionRuns.

Import Store Controller Planar Sample Session.
Local Open Scope Z_scope.

(** Runs one pass and hands its result to the continuation. *)
Ltac run_pass w st k :=
  let r := fresh "r" in
  let E := fresh "E" in
  pose (r := loop_body w st);
  assert (E : loop_body w st = r) by reflexivity;
  vm_compute in r; subst r;
  match type of E with
  | _ = (Continue _ ?s, ?w') => exists s, w'; k E
  end.

(** C5 (counterexample). The page does not change under the key press:
    the pass reseeds as stalled and the key is still the up arrow.  The
    same holds for the pass that leaves the fence. *)
Lemma reseed_after_stall_keeps_key :
  keytopress st_at_A = ARROW_UP /\
  (exists st' w',
     loop_body w_stall st_at_A = (Continue Stalled st', w') /\
     keytopress st' = ARROW_UP) /\
  (exists st' w',
     loop_body w_out st_at_A = (Continue OutOfBounds st', w') /\
     keytopress st' = ARROW_UP).
Proof.
  split; [ reflexivity | ].
  split; eexists; eexists; (split; [ vm_compute; reflexivity | reflexivity ]).
Qed.

(** The third rejection in a row: the pass reseeds and the key goes from
    up to down. *)
Lemma keytopress_flips_only_at_threshold_witness :
  exists st' w',
    loop_body w_third_rejection st_two_fails = (Continue FailureThreshold st', w') /\
    keytopress st' = ARROW_DOWN.
Proof.
  run_pass w_third_rejection st_two_fails
    ltac:(fun E => split;
            [ exact E | exact (keytopress_flips_only_at_threshold _ _ _ _ _ E) ]).
Defined.



(** C7 (counterexample). The frontier is empty, so
    [get_starting_coordinates] answers [(None, None)]; the stalled pass
    reseeds all the same, from the url it had, and the next pass commits a
    panorama. *)
Lemma empty_frontier_session_goes_on :
  fst (get_starting_coordinates no_fault (database w_stall)) = (None, None) /\
  exists st' w',
    run 2 w_stall st_at_A = Some ([Stalled; Committed], st', w') /\
    url st' = url st_at_A.
Proof.
  split; [ reflexivity | ].
  eexists; eexists. split; [ vm_compute; reflexivity | reflexivity ].
Qed.

(** The stalled pass on the empty frontier keeps the url given at the
    start. *)
Lemma empty_frontier_keeps_url_witness :
  exists st' w',
    loop_body w_stall st_at_A = (Continue Stalled st', w') /\
    url st' = Some (GivenUrl url_A).
Proof.
  run_pass w_stall st_at_A
    ltac:(fun E => split;
            [ exact E
            | exact (proj2 (empty_frontier_keeps_url w_stall st_at_A eq_refl)
                       _ _ _ E) ]).
Defined.

(** C9 (counterexample). The database cannot be reached, the commit is
    rejected for the first time and the pass retries: [iter] is 0 before
    and 0 after. *)
Lemma retry_pass_keeps_iter :
  iter st_fresh = 0 /\
  exists st' w',
    loop_body w_rejecting st_fresh = (Continue Retry st', w') /\
    iter st' = 0.
Proof.
  split; [ reflexivity | ].
  eexists; eexists. split; [ vm_compute; reflexivity | reflexivity ].
Qed.

(** The stalled pass takes [iter] from 5 to 6. *)
Lemma iter_counts_some_passes_witness :
  exists st' w',
    loop_body w_stall st_at_A = (Continue Stalled st', w') /\
    iter st' = 6.
Proof.
  run_pass w_stall st_at_A
    ltac:(fun E => split;
            [ exact E
            | exact (proj2 (iter_counts_some_passes _ _ _ _ _ E)) ]).
Defined.

End SessionRuns.

Section ParserRuns.

Import UrlParser Session.
Local Open Scope string_scope.

(** An address with coordinates and no pano id. *)
Lemma parse_google_maps_url_total_witness :
  parse_google_maps_url url_no_pano =
  (Some 48.6738246%float, Some 6.1744465%float, None).
Proof.
  destruct (parse_google_maps_url_total url_no_pano) as (_ & _ & _ & H).
  destruct (H "48.6738246" "6.1744465" eq_refl eq_refl eq_refl)
    as (la & lo & E1 & E2 & E).
  vm_compute in E1, E2. inversion E1. inversion E2. subst la lo. exact E.
Defined.

End ParserRuns.

(** * Further properties of the code *)

(** ** [insert_db] under every fault plan *)

Section InsertOutcomes.

Import Store.
Context {gis : PostGIS}.

(** The four ways a call can end. *)
Lemma insert_db_outcomes (pl : plan) (d : db) (lat long : option float)
  (pano_id : option string) :
  insert_db pl d lat long pano_id = (Returned false, d) \/
  ((lat = None \/ long = None) /\ pl Connect = false /\ pl ExecSelect = false /\
   insert_db pl d lat long pano_id = (Raised, d)) \/
  (exists la lo,
     lat = Some la /\ long = Some lo /\
     (insert_db pl d lat long pano_id =
        (Returned false,
         {| to_insert := fst (PruneNear (to_insert d) la lo);
            panoids := panoids d |}) \/
      insert_db pl d lat long pano_id =
        (Returned true,
         {| to_insert := fst (PruneNear (to_insert d) la lo);
            panoids := panoids d ++
              [{| p_latitude := la; p_longitude := lo;
                  p_pano_id := pano_id |}] |}))).
Proof.
  unfold insert_db.
  destruct (pl Connect) eqn:H0; [ left; reflexivity | ].
  unfold insert_db_try, prune_nearest, find_nearest_query, delete_query,
    commit, insert_query, guard, bind, PruneNear.
  destruct (pl ExecSelect) eqn:H1; [ left; reflexivity | ].
  cbn [ret raise connect pending committed].
  destruct lat as [la |], long as [lo |]; cbn [make_point];
    try (right; left; cbn; auto; fail).
  destruct d as [ti pa]. cbn [to_insert panoids].
  destruct (select_nearest (Some (lo, la)) ti) as [n |] eqn:S;
    cbn [option_map format_6f ret raise fst];
    [ destruct (pl ExecDelete); cbn [ret raise]; [ left; reflexivity | ] | ];
    (destruct (pl Commit1); cbn [ret raise]; [ left; reflexivity | ]);
    right; right; exists la, lo;
    (split; [ reflexivity | split; [ reflexivity | ] ]);
    rewrite S; cbn [fst];
    (destruct (pl ExecInsert); cbn [ret raise]; [ left; reflexivity | ]);
    (destruct (pl Commit2); cbn [ret raise]; [ left | right ]; reflexivity).
Qed.

(** What [PruneNear] leaves is part of the frontier, and a row it drops
    shares its coordinates with a candidate within 30 m of the point. *)
Lemma PruneNear_frontier (fr : list frontier_row) (lat long : float) :
  (forall r, In r (fst (PruneNear fr lat long)) -> In r fr) /\
  (forall r, In r fr -> ~ In r (fst (PruneNear fr lat long)) ->
     exists n, In n fr /\ in_range (long, lat) n = true /\
               same_coordinates (latitude n) (longitude n) r = true).
Proof.
  unfold PruneNear.
  destruct (select_nearest (Some (long, lat)) fr) as [n |] eqn:E; cbn [fst].
  - destruct (select_nearest_some _ _ _ E) as [Hin Hq]. split.
    + intros r Hr. apply filter_In in Hr. tauto.
    + intros r Hr Hno. exists n. split; [ exact Hin | split; [ exact Hq | ] ].
      destruct (same_coordinates (latitude n) (longitude n) r) eqn:S;
        [ reflexivity | ].
      exfalso. apply Hno. apply filter_In. rewrite S. auto.
  - split; [ auto | ]. intros r Hr Hno. contradiction.
Qed.

(** X1. Whatever statement fails and whatever the arguments are,
    [insert_db] returns [True] exactly when it has added its row to
    [panoids] (and then both coordinates were given); when it returns
    [False] [panoids] is what it was, and when it raises the whole
    database is. *)
Theorem insert_db_reports_the_insert (pl : plan) (d : db)
  (lat long : option float) (pano_id : option string) :
  match insert_db pl d lat long pano_id with
  | (Returned true, d') =>
      exists la lo,
        lat = Some la /\ long = Some lo /\
        panoids d' = panoids d ++
          [{| p_latitude := la; p_longitude := lo; p_pano_id := pano_id |}]
  | (Returned false, d') => panoids d' = panoids d
  | (Raised, d') => d' = d
  end.
Proof.
  destruct (insert_db_outcomes pl d lat long pano_id)
    as [E | [(_ & _ & _ & E) | (la & lo & -> & -> & [E | E])]];
    rewrite E; cbn [panoids]; eauto.
Qed.

(** X2. Whatever fails, [insert_db] adds no row to the frontier, and a
    frontier row it removes carries the latitude and longitude of a
    candidate within 30 m of the committed point. *)
Theorem insert_db_frontier_effect (pl : plan) (d : db)
  (lat long : option float) (pano_id : option string) :
  (forall r, In r (to_insert (snd (insert_db pl d lat long pano_id))) ->
             In r (to_insert d)) /\
  (forall r, In r (to_insert d) ->
             ~ In r (to_insert (snd (insert_db pl d lat long pano_id))) ->
     exists la lo n,
       lat = Some la /\ long = Some lo /\ In n (to_insert d) /\
       in_range (lo, la) n = true /\
       same_coordinates (latitude n) (longitude n) r = true).
Proof.
  destruct (insert_db_outcomes pl d lat long pano_id)
    as [E | [(_ & _ & _ & E) | (la & lo & -> & -> & [E | E])]];
    rewrite E; cbn [snd to_insert].
  1, 2: split; [ auto | intros r Hr Hno; contradiction ].
  all: destruct (PruneNear_frontier (to_insert d) la lo) as [P1 P2];
    split; [ exact P1 | ];
    intros r Hr Hno; destruct (P2 r Hr Hno) as (n & Hn & Hq & Hs);
    exists la, lo, n; auto.
Qed.

Lemma insert_db_missing_coordinate (pl : plan) (d : db)
  (lat long : option float) (pano_id : option string) :
  lat = None \/ long = None -> pl Connect = false -> pl ExecSelect = false ->
  insert_db pl d lat long pano_id = (Raised, d).
Proof.
  intros N C S. unfold insert_db. rewrite C.
  unfold insert_db_try, prune_nearest, find_nearest_query, guard, bind.
  rewrite S. cbn [ret raise connect pending committed].
  destruct lat as [la |], long as [lo |]; destruct N as [N | N];
    try discriminate N; reflexivity.
Qed.

(** X3. When latitude or longitude is [None], [insert_db] never touches
    the database: it returns [False] when connecting or the [SELECT] fails,
    and otherwise the [TypeError] of formatting [None] with [.6f]
    escapes. *)
Theorem insert_db_raises_on_missing_coordinate (pl : plan) (d : db)
  (lat long : option float) (pano_id : option string) :
  lat = None \/ long = None ->
  insert_db pl d lat long pano_id =
    if pl Connect || pl ExecSelect then (Returned false, d) else (Raised, d).
Proof.
  intros N.
  destruct (pl Connect) eqn:C; cbn [orb].
  - apply insert_db_connect_fault. exact C.
  - destruct (pl ExecSelect) eqn:S.
    + unfold insert_db. rewrite C.
      unfold insert_db_try, prune_nearest, find_nearest_query, guard, bind.
      rewrite S. reflexivity.
    + apply insert_db_missing_coordinate; assumption.
Qed.

End InsertOutcomes.

(** ** The frontier clean-up *)

Section CleanupFacts.

Import Store Cleanup.
Context {gis : PostGIS}.

Lemma filter_split_length {A : Type} (f : A -> bool) (l : list A) :
  (List.length (filter f l) + List.length (filter (fun x => negb (f x)) l))%nat
  = List.length l.
Proof.
  induction l as [| a l IH]; cbn; [ reflexivity | ].
  destruct (f a); cbn; lia.
Qed.

Lemma filter_negb_twice {A : Type} (f : A -> bool) (l : list A) :
  filter (fun x => negb (f x)) (filter (fun x => negb (f x)) l)
  = filter (fun x => negb (f x)) l /\
  filter f (filter (fun x => negb (f x)) l) = [].
Proof.
  induction l as [| a l [IH1 IH2]]; cbn; [ auto | ].
  destruct (f a) eqn:E; cbn; [ auto | ].
  rewrite E. cbn. rewrite IH1, IH2. auto.
Qed.

(** The real run under every plan. *)
Lemma delete_close_real (pl : cleanup_plan) (d : db) (t : float) :
  delete_close_points_from_to_insert pl d t false =
    if pl CleanConnect || pl ExecDeleteClose || pl CommitDelete then (0%nat, d)
    else
      let kept := {| to_insert :=
                       filter (fun r => negb (near_a_panoid t (panoids d) r))
                         (to_insert d);
                     panoids := panoids d |} in
      if pl ExecRemaining then (0%nat, kept)
      else (List.length (filter (near_a_panoid t (panoids d)) (to_insert d)),
            kept).
Proof.
  unfold delete_close_points_from_to_insert, delete_close_try, delete_close,
    fails, bind.
  destruct (pl CleanConnect); [ reflexivity | ].
  destruct (pl ExecDeleteClose); [ reflexivity | ].
  cbn [orb ret raise connect pending committed].
  destruct (pl CommitDelete); [ reflexivity | ].
  cbn [orb ret raise pending committed].
  destruct (pl ExecRemaining); reflexivity.
Qed.

(** The dry run under every plan. *)
Lemma delete_close_dry (pl : cleanup_plan) (d : db) (t : float) :
  delete_close_points_from_to_insert pl d t true = (0%nat, d).
Proof.
  unfold delete_close_points_from_to_insert, delete_close_try, count_close,
    execute_sample_query, fails, bind.
  destruct (pl CleanConnect); [ reflexivity | ].
  destruct (pl ExecCount); reflexivity.
Qed.

(** X4. When no statement fails, the real run of
    [delete_close_points_from_to_insert] keeps exactly the frontier rows
    that have no panorama within the threshold, leaves [panoids] alone,
    and returns the number of rows that are gone. *)
Theorem delete_close_points_removes_every_close_row (d : db) (t : float) :
  let n := fst (delete_close_points_from_to_insert clean_run d t false) in
  let d' := snd (delete_close_points_from_to_insert clean_run d t false) in
  panoids d' = panoids d /\
  (forall r, In r (to_insert d') <->
             In r (to_insert d) /\ near_a_panoid t (panoids d) r = false) /\
  (n + List.length (to_insert d') = List.length (to_insert d))%nat.
Proof.
  cbv zeta. rewrite delete_close_real. cbn.
  split; [ reflexivity | split ].
  - intros r. rewrite filter_In, negb_true_iff. reflexivity.
  - apply filter_split_length.
Qed.

(** X5. The real run is idempotent: run again on its own result without
    a failure, it deletes nothing and returns 0. *)
Theorem delete_close_points_idempotent (d : db) (t : float) :
  delete_close_points_from_to_insert clean_run
    (snd (delete_close_points_from_to_insert clean_run d t false)) t false
  = (0%nat, snd (delete_close_points_from_to_insert clean_run d t false)).
Proof.
  rewrite !delete_close_real. cbn.
  destruct (filter_negb_twice (near_a_panoid t (panoids d)) (to_insert d))
    as [E1 E2].
  rewrite E1, E2. reflexivity.
Qed.

(** X6. The dry run never changes the database and always returns 0,
    also when rows are close to a panorama and nothing fails in the
    database: its sample query is executed with one parameter for two
    placeholders, the call raises and the handler answers 0.  The real run
    on the same database returns the number of close rows. *)
Theorem delete_close_points_dry_run (pl : cleanup_plan) (d : db) (t : float) :
  delete_close_points_from_to_insert pl d t true = (0%nat, d) /\
  fst (delete_close_points_from_to_insert clean_run d t false) =
    List.length (filter (near_a_panoid t (panoids d)) (to_insert d)).
Proof.
  rewrite delete_close_dry, delete_close_real. cbn. auto.
Qed.

(** X7. A failure of the real run up to its commit leaves the database
    unchanged and returns 0.  When only the count of the remaining rows
    fails, the function also returns 0 although the rows are deleted for
    good. *)
Theorem delete_close_points_failures (pl : cleanup_plan) (d : db) (t : float) :
  (pl CleanConnect = true \/ pl ExecDeleteClose = true \/ pl CommitDelete = true ->
   delete_close_points_from_to_insert pl d t false = (0%nat, d)) /\
  (pl CleanConnect = false -> pl ExecDeleteClose = false ->
   pl CommitDelete = false -> pl ExecRemaining = true ->
   delete_close_points_from_to_insert pl d t false =
     (0%nat, snd (delete_close_points_from_to_insert clean_run d t false))).
Proof.
  rewrite !delete_close_real. cbn. split.
  - intros [H | [H | H]]; rewrite H; rewrite ?orb_true_r; reflexivity.
  - intros -> -> -> ->. reflexivity.
Qed.

(** X8. After [insert_db] has committed a panorama without a failure, a
    clean-up run at any threshold leaves no frontier row within that
    threshold of the panorama. *)
Theorem cleanup_after_commit (d : db) (lat long t : float)
  (pano_id : option string) :
  let d1 := snd (insert_db no_fault d (Some lat) (Some long) pano_id) in
  let d2 := snd (delete_close_points_from_to_insert clean_run d1 t false) in
  forall r g, In r (to_insert d2) -> geom r = Some g ->
              ST_DWithin g (long, lat) t = false.
Proof.
  cbv zeta. rewrite insert_db_no_fault, delete_close_real. cbn.
  intros r g Hr Hg. apply filter_In in Hr. destruct Hr as [_ Hr].
  apply negb_true_iff in Hr. unfold near_a_panoid in Hr. rewrite Hg in Hr.
  rewrite existsb_app in Hr. apply orb_false_iff in Hr.
  destruct Hr as [_ Hr]. cbn in Hr. rewrite orb_false_r in Hr. exact Hr.
Qed.

End CleanupFacts.

(** ** The walkthrough and the database *)

Section WalkthroughFacts.

Import Store Controller Cleanup Walkthrough.
Context {gis : PostGIS}.
Local Open Scope Z_scope.

Lemma grows_refl (d : db) : grows d d.
Proof.
  split; [ exists []; rewrite app_nil_r; reflexivity | ].
  exists (fun _ => true). induction (to_insert d) as [| a l IH]; cbn; congruence.
Qed.

Lemma filter_filter {A : Type} (f g : A -> bool) (l : list A) :
  filter g (filter f l) = filter (fun x => f x && g x) l.
Proof.
  induction l as [| a l IH]; cbn; [ reflexivity | ].
  destruct (f a); cbn; [ destruct (g a); cbn; congruence | exact IH ].
Qed.

Lemma grows_trans (d1 d2 d3 : db) : grows d1 d2 -> grows d2 d3 -> grows d1 d3.
Proof.
  intros [[a1 P1] [k1 F1]] [[a2 P2] [k2 F2]]. split.
  - exists (a1 ++ a2). rewrite P2, P1, app_assoc. reflexivity.
  - exists (fun x => k1 x && k2 x). rewrite F2, F1. apply filter_filter.
Qed.

Lemma insert_db_grows (pl : plan) (d : db) (lat long : option float)
  (pano_id : option string) :
  grows d (snd (insert_db pl d lat long pano_id)).
Proof.
  destruct (insert_db_outcomes pl d lat long pano_id)
    as [E | [(_ & _ & _ & E) | (la & lo & _ & _ & [E | E])]];
    rewrite E; cbn [snd]; try apply grows_refl.
  - split; cbn; [ exists []; rewrite app_nil_r; reflexivity | ].
    unfold PruneNear. destruct (select_nearest _ _); cbn [fst]; eauto.
    apply grows_refl.
  - split; cbn; [ eauto | ].
    unfold PruneNear. destruct (select_nearest _ _); cbn [fst]; eauto.
    apply grows_refl.
Qed.

Lemma growing_ret {A : Type} (a : A) : growing (ret a).
Proof. intros w r w' H. inversion H. apply grows_refl. Qed.

Lemma growing_raise {A : Type} (e : exn) : growing (@raise world A e).
Proof. intros w r w' H. inversion H. apply grows_refl. Qed.

Lemma growing_bind {A B : Type} (m : M world A) (k : A -> M world B) :
  growing m -> (forall a, growing (k a)) -> growing (bind m k).
Proof.
  intros Hm Hk w r w' H. unfold bind in H.
  destruct (m w) as [[e | a] w1] eqn:E.
  - inversion H; subst. exact (Hm _ _ _ E).
  - exact (grows_trans _ _ _ (Hm _ _ _ E) (Hk a _ _ _ H)).
Qed.

Lemma growing_current_url : growing current_url.
Proof.
  intros w r w' H. rewrite (current_url_database _ _ _ H). apply grows_refl.
Qed.

Lemma growing_send_keys (k : key) : growing (send_keys k).
Proof. intros w r w' H. inversion H. apply grows_refl. Qed.

Lemma growing_next_plan : growing next_plan.
Proof.
  intros w r w' H. unfold next_plan in H.
  destruct (plans w); inversion H; apply grows_refl.
Qed.

Lemma growing_call_insert_db (lat long : option float)
  (pano_id : option string) : growing (call_insert_db lat long pano_id).
Proof.
  unfold call_insert_db. apply growing_bind; [ apply growing_next_plan | ].
  intros pl w r w' H.
  pose proof (insert_db_grows pl (database w) lat long pano_id) as G.
  destruct (insert_db pl (database w) lat long pano_id) as [[b |] d];
    inversion H; exact G.
Qed.

Lemma growing_call_get_starting_coordinates :
  growing call_get_starting_coordinates.
Proof.
  unfold call_get_starting_coordinates.
  apply growing_bind; [ apply growing_next_plan | ].
  intros pl w r w' H.
  pose proof (get_starting_coordinates_db pl (database w)) as G.
  destruct (get_starting_coordinates pl (database w)) as [c d].
  inversion H. cbn in *. subst. apply grows_refl.
Qed.

Lemma growing_downloader (pano_id : option string) :
  growing (run_streetview_downloader_single pano_id).
Proof.
  destruct pano_id; [ apply growing_ret | apply growing_raise ].
Qed.

Lemma growing_set_url (u : option url_value) : growing (set_url u).
Proof.
  unfold set_url. destruct u; [ | apply growing_raise ].
  apply growing_bind; [ apply growing_current_url | intros cu ].
  destruct (UrlParser.parse_google_maps_url cu) as [[lat long] pano].
  apply growing_bind; [ apply growing_call_insert_db | intros ok ].
  apply growing_bind.
  - destruct ok; [ apply growing_downloader | apply growing_ret ].
  - intros _. apply growing_bind; [ apply growing_current_url | ].
    intros _. apply growing_ret.
Qed.

Lemma growing_reseed (u : option url_value) : growing (reseed u).
Proof.
  unfold reseed.
  apply growing_bind; [ apply growing_call_get_starting_coordinates | ].
  intros c. apply growing_bind; [ apply growing_set_url | ].
  intros r. apply growing_ret.
Qed.

Lemma growing_loop_try (st : ctrl) : growing (loop_try st).
Proof.
  unfold loop_try.
  apply growing_bind.
  { destruct (move st); [ apply growing_send_keys | apply growing_ret ]. }
  intros _. apply growing_bind; [ apply growing_current_url | intros cu ].
  destruct (UrlParser.parse_google_maps_url cu) as [[lat long] pano].
  destruct (same_position lat long (old_lat_long st)).
  { apply growing_bind; [ apply growing_reseed | ].
    intros [[u' old'] f']. apply growing_ret. }
  destruct lat as [la |]; [ | apply growing_ret ].
  destruct long as [lo |]; [ | apply growing_ret ].
  destruct pano as [p |]; [ | apply growing_ret ].
  destruct (negb (Geofence.in_nancy la lo)).
  { apply growing_bind; [ apply growing_reseed | ].
    intros [[u' old'] f']. apply growing_ret. }
  apply growing_bind; [ apply growing_call_insert_db | intros ok ].
  destruct (negb ok).
  - cbv zeta. destruct (chained_fail st + 1 >? 2); [ | apply growing_ret ].
    apply growing_bind; [ apply growing_reseed | ].
    intros [[u' old'] f']. apply growing_ret.
  - apply growing_bind; [ apply growing_downloader | ].
    intros _. apply growing_ret.
Qed.

(** X9. A pass of the loop, however it ends, only appends rows to
    [panoids] and only drops rows from [to_insert]. *)
Theorem loop_body_database_grows (w : world) (st : ctrl) :
  grows (database w) (database (snd (loop_body w st))).
Proof.
  unfold loop_body.
  destruct (loop_try st w) as [[e | o] w'] eqn:E; cbn [snd];
    exact (growing_loop_try st _ _ _ E).
Qed.

Lemma loop_body_grows (w w' : world) (st : ctrl) (o : outcome) :
  loop_body w st = (o, w') -> grows (database w) (database w').
Proof.
  unfold loop_body. intros H.
  destruct (loop_try st w) as [[e | o'] w1] eqn:E; inversion H; subst;
    exact (growing_loop_try st _ _ _ E).
Qed.

Lemma call_insert_db_accepts (lat long : option float) (pano_id : option string)
  (w w' : world) (b : bool) :
  call_insert_db lat long pano_id w = (inr b, w') ->
  if b then
    exists la lo,
      lat = Some la /\ long = Some lo /\
      panoids (database w') = panoids (database w) ++
        [{| p_latitude := la; p_longitude := lo; p_pano_id := pano_id |}]
  else panoids (database w') = panoids (database w).
Proof.
  unfold call_insert_db, bind, next_plan. intros H.
  assert (K : forall pl w0, database w0 = database w ->
            (let (r, d) := insert_db pl (database w0) lat long pano_id in
             match r with
             | Returned b0 =>
                 (@inr exn bool b0,
                  {| database := d; feed := feed w0; pressed := pressed w0;
                     plans := plans w0 |})
             | Raised =>
                 (inl TypeError,
                  {| database := d; feed := feed w0; pressed := pressed w0;
                     plans := plans w0 |})
             end) = (inr b, w') ->
            if b then
              exists la lo,
                lat = Some la /\ long = Some lo /\
                panoids (database w') = panoids (database w) ++
                  [{| p_latitude := la; p_longitude := lo;
                      p_pano_id := pano_id |}]
            else panoids (database w') = panoids (database w)).
  { intros pl w0 D. rewrite D.
    pose proof (insert_db_outcomes pl (database w) lat long pano_id) as O.
    destruct (insert_db pl (database w) lat long pano_id) as [[b0 |] d];
      intros Q; inversion Q; subst b0 w'; cbn [database].
    destruct O as [E | [(_ & _ & _ & E) | (la & lo & -> & -> & [E | E])]];
      inversion E; subst; cbn [panoids]; eauto. }
  destruct (plans w) as [| pl rest]; eapply K; try exact H; reflexivity.
Qed.

Lemma committed_pass_row (w w' : world) (st st' : ctrl) :
  loop_body w st = (Continue Committed st', w') ->
  exists pano_id,
    panoids (database w') = panoids (database w) ++
      [{| p_latitude := fst (old_lat_long st');
          p_longitude := snd (old_lat_long st');
          p_pano_id := Some pano_id |}] /\
    Geofence.in_nancy (fst (old_lat_long st')) (snd (old_lat_long st')) = true /\
    same_position (Some (fst (old_lat_long st'))) (Some (snd (old_lat_long st')))
      (old_lat_long st) = false.
Proof.
  unfold loop_body, loop_try, bind. intros H.
  destruct ((if move st then send_keys (keytopress st) else ret tt) w)
    as [[x | []] w0] eqn:K; [ discriminate | ].
  assert (D0 : database w0 = database w).
  { destruct (move st); cbv [send_keys ret] in K; inversion K; reflexivity. }
  destruct (current_url w0) as [[x | cu] w1] eqn:C; [ discriminate | ].
  pose proof (current_url_database _ _ _ C) as D1.
  destruct (UrlParser.parse_google_maps_url cu) as [[lat long] pano].
  destruct (same_position lat long (old_lat_long st)) eqn:SP.
  { destruct (reseed (url st) w1) as [[x | [[u' old'] f']] w2];
      [ discriminate | cbn in H; discriminate ]. }
  destruct lat as [la |]; [ | cbn in H; discriminate ].
  destruct long as [lo |]; [ | cbn in H; discriminate ].
  destruct pano as [p |]; [ | cbn in H; discriminate ].
  destruct (Geofence.in_nancy la lo) eqn:F; cbn [negb] in H.
  2: { destruct (reseed (url st) w1) as [[x | [[u' old'] f']] w2];
         [ discriminate | cbn in H; discriminate ]. }
  destruct (call_insert_db (Some la) (Some lo) (Some p) w1)
    as [[x | ok] w2] eqn:I; [ discriminate | ].
  destruct ok; cbn [negb] in H.
  - cbn in H. inversion H; subst. cbn [old_lat_long fst snd].
    apply call_insert_db_accepts in I.
    destruct I as (la' & lo' & E1 & E2 & P). inversion E1; inversion E2; subst.
    exists p. rewrite P, D1, D0. auto.
  - destruct (chained_fail st + 1 >? 2).
    + destruct (reseed (url st) w2) as [[x | [[u' old'] f']] w3];
        [ discriminate | cbn in H; discriminate ].
    + cbn in H. discriminate.
Qed.

(** X10. A pass that reaches the end of the loop body has stored exactly
    one row: it is the last row of [panoids], it sits at the position that
    is now [old_lat_long], that position is inside the fence and differs
    from the previous [old_lat_long]. *)
Theorem committed_pass_stores_one_row (w w' : world) (st st' : ctrl) :
  loop_body w st = (Continue Committed st', w') ->
  exists pano_id,
    panoids (database w') = panoids (database w) ++
      [{| p_latitude := fst (old_lat_long st');
          p_longitude := snd (old_lat_long st');
          p_pano_id := Some pano_id |}] /\
    Geofence.in_nancy (fst (old_lat_long st')) (snd (old_lat_long st')) = true /\
    same_position (Some (fst (old_lat_long st'))) (Some (snd (old_lat_long st')))
      (old_lat_long st) = false.
Proof. apply committed_pass_row. Qed.

(** X11. A pass that retries after a rejected commit has stored
    nothing: [panoids] is what it was. *)
Theorem retry_pass_stores_nothing (w w' : world) (st st' : ctrl) :
  loop_body w st = (Continue Retry st', w') ->
  panoids (database w') = panoids (database w).
Proof.
  unfold loop_body, loop_try, bind. intros H.
  destruct ((if move st then send_keys (keytopress st) else ret tt) w)
    as [[x | []] w0] eqn:K; [ discriminate | ].
  assert (D0 : database w0 = database w).
  { destruct (move st); cbv [send_keys ret] in K; inversion K; reflexivity. }
  destruct (current_url w0) as [[x | cu] w1] eqn:C; [ discriminate | ].
  pose proof (current_url_database _ _ _ C) as D1.
  destruct (UrlParser.parse_google_maps_url cu) as [[lat long] pano].
  destruct (same_position lat long (old_lat_long st)) eqn:SP.
  { destruct (reseed (url st) w1) as [[x | [[u' old'] f']] w2];
      [ discriminate | cbn in H; discriminate ]. }
  destruct lat as [la |]; [ | cbn in H; discriminate ].
  destruct long as [lo |]; [ | cbn in H; discriminate ].
  destruct pano as [p |]; [ | cbn in H; discriminate ].
  destruct (Geofence.in_nancy la lo) eqn:F; cbn [negb] in H.
  2: { destruct (reseed (url st) w1) as [[x | [[u' old'] f']] w2];
         [ discriminate | cbn in H; discriminate ]. }
  destruct (call_insert_db (Some la) (Some lo) (Some p) w1)
    as [[x | ok] w2] eqn:I; [ discriminate | ].
  destruct ok; cbn [negb] in H.
  - cbn in H. discriminate.
  - destruct (chained_fail st + 1 >? 2).
    + destruct (reseed (url st) w2) as [[x | [[u' old'] f']] w3];
        [ discriminate | cbn in H; discriminate ].
    + cbn in H. inversion H; subst.
      apply call_insert_db_accepts in I. rewrite I, D1, D0. reflexivity.
Qed.

(** *** Keys *)

Lemma silent_ret {A : Type} (a : A) : silent (ret a).
Proof. intros w r w' H. inversion H. reflexivity. Qed.

Lemma silent_raise {A : Type} (e : exn) : silent (@raise world A e).
Proof. intros w r w' H. inversion H. reflexivity. Qed.

Lemma silent_bind {A B : Type} (m : M world A) (k : A -> M world B) :
  silent m -> (forall a, silent (k a)) -> silent (bind m k).
Proof.
  intros Hm Hk w r w' H. unfold bind in H.
  destruct (m w) as [[e | a] w1] eqn:E.
  - inversion H; subst. exact (Hm _ _ _ E).
  - rewrite (Hk a _ _ _ H). exact (Hm _ _ _ E).
Qed.

Lemma silent_current_url : silent current_url.
Proof.
  intros w r w' H. unfold current_url in H.
  destruct (feed w) as [| [u |] rest]; inversion H; reflexivity.
Qed.

Lemma silent_next_plan : silent next_plan.
Proof.
  intros w r w' H. unfold next_plan in H.
  destruct (plans w); inversion H; reflexivity.
Qed.

Lemma silent_call_insert_db (lat long : option float)
  (pano_id : option string) : silent (call_insert_db lat long pano_id).
Proof.
  unfold call_insert_db. apply silent_bind; [ apply silent_next_plan | ].
  intros pl w r w' H.
  destruct (insert_db pl (database w) lat long pano_id) as [[b |] d];
    inversion H; reflexivity.
Qed.

Lemma silent_call_get_starting_coordinates :
  silent call_get_starting_coordinates.
Proof.
  unfold call_get_starting_coordinates.
  apply silent_bind; [ apply silent_next_plan | ].
  intros pl w r w' H.
  destruct (get_starting_coordinates pl (database w)) as [c d].
  inversion H. reflexivity.
Qed.

Lemma silent_downloader (pano_id : option string) :
  silent (run_streetview_downloader_single pano_id).
Proof.
  destruct pano_id; [ apply silent_ret | apply silent_raise ].
Qed.

Lemma silent_set_url (u : option url_value) : silent (set_url u).
Proof.
  unfold set_url. destruct u; [ | apply silent_raise ].
  apply silent_bind; [ apply silent_current_url | intros cu ].
  destruct (UrlParser.parse_google_maps_url cu) as [[lat long] pano].
  apply silent_bind; [ apply silent_call_insert_db | intros ok ].
  apply silent_bind.
  - destruct ok; [ apply silent_downloader | apply silent_ret ].
  - intros _. apply silent_bind; [ apply silent_current_url | ].
    intros _. apply silent_ret.
Qed.

Lemma silent_reseed (u : option url_value) : silent (reseed u).
Proof.
  unfold reseed.
  apply silent_bind; [ apply silent_call_get_starting_coordinates | ].
  intros c. apply silent_bind; [ apply silent_set_url | ].
  intros r. apply silent_ret.
Qed.

Lemma bind_inv {S A B : Type} (m : M S A) (k : A -> M S B) (s s' : S)
  (r : exn + B) :
  bind m k s = (r, s') ->
  (exists e, m s = (inl e, s') /\ r = inl e) \/
  (exists a s0, m s = (inr a, s0) /\ k a s0 = (r, s')).
Proof.
  unfold bind. destruct (m s) as [[e | a] s0]; intros H.
  - inversion H; subst. left. eauto.
  - right. eauto.
Qed.

Lemma loop_try_keys (st : ctrl) (w w' : world) (r : exn + outcome) :
  loop_try st w = (r, w') ->
  pressed w' = if move st then keytopress st :: pressed w else pressed w.
Proof.
  unfold loop_try. intros H. apply bind_inv in H.
  assert (P0 : forall x w0,
             (if move st then send_keys (keytopress st) else ret tt) w = (x, w0) ->
             pressed w0 =
               if move st then keytopress st :: pressed w else pressed w).
  { intros x w0 K. destruct (move st); cbv [send_keys ret] in K;
      inversion K; reflexivity. }
  destruct H as [(e & K & _) | (a & w0 & K & H)]; [ exact (P0 _ _ K) | ].
  rewrite <- (P0 _ _ K). clear P0 K.
  match type of H with
  | ?c w0 = _ => assert (S : silent c)
  end.
  { apply silent_bind; [ apply silent_current_url | intros cu ].
    destruct (UrlParser.parse_google_maps_url cu) as [[lat long] pano].
    destruct (same_position lat long (old_lat_long st)).
    { apply silent_bind; [ apply silent_reseed | ].
      intros [[u' old'] f']. apply silent_ret. }
    destruct lat as [la |]; [ | apply silent_ret ].
    destruct long as [lo |]; [ | apply silent_ret ].
    destruct pano as [p |]; [ | apply silent_ret ].
    destruct (negb (Geofence.in_nancy la lo)).
    { apply silent_bind; [ apply silent_reseed | ].
      intros [[u' old'] f']. apply silent_ret. }
    apply silent_bind; [ apply silent_call_insert_db | intros ok ].
    destruct (negb ok).
    - cbv zeta. destruct (chained_fail st + 1 >? 2); [ | apply silent_ret ].
      apply silent_bind; [ apply silent_reseed | ].
      intros [[u' old'] f']. apply silent_ret.
    - apply silent_bind; [ apply silent_downloader | ].
      intros _. apply silent_ret. }
  exact (S _ _ _ H).
Qed.

(** X12. A pass sends at most one key, first thing: [keytopress] when
    [move] is set and none otherwise, so no key goes out in the pass that
    follows a reseed.  Nothing else in the pass, reseed included, sends an
    arrow key. *)
Theorem loop_body_keys (w : world) (st : ctrl) :
  pressed (snd (loop_body w st)) =
    if move st then keytopress st :: pressed w else pressed w.
Proof.
  unfold loop_body.
  destruct (loop_try st w) as [[e | o] w'] eqn:E; cbn [snd];
    exact (loop_try_keys _ _ _ _ E).
Qed.

(** *** Start-up, sessions and statistics *)

Lemma call_get_starting_coordinates_nothing (w : world) :
  frontier_gives_nothing w ->
  call_get_starting_coordinates w = (inr (None, None), snd (next_plan w)).
Proof.
  intros N. destruct w as [d f k ps].
  unfold call_get_starting_coordinates, bind, next_plan,
    get_starting_coordinates.
  destruct N as [E | (pl & rest & E & F)]; cbn in E.
  - destruct ps as [| pl rest]; cbn [plans database feed pressed snd];
      rewrite E; [ reflexivity | ].
    destruct (pl Connect || pl ExecSelect); reflexivity.
  - subst ps. cbn [plans database feed pressed snd].
    assert (Q : pl Connect || pl ExecSelect = true)
      by (destruct F as [-> | ->]; rewrite ?orb_true_r; reflexivity).
    rewrite Q. reflexivity.
Qed.

(** X13. When the frontier query fails in a reseed, the controller does
    what it does on an empty frontier: it keeps the url it had and reloads
    it with [set_url]. *)
Theorem reseed_when_frontier_gives_nothing (u : option url_value) (w : world) :
  frontier_gives_nothing w ->
  reseed u w =
    match set_url u (snd (next_plan w)) with
    | (inr r, w') => (inr (u, fst r, snd r), w')
    | (inl x, w') => (inl x, w')
    end.
Proof.
  intros N. unfold reseed, bind.
  rewrite (call_get_starting_coordinates_nothing _ N).
  destruct (set_url u _) as [[x | r] w']; reflexivity.
Qed.

(** X14. Started without a url while the frontier gives nothing, the
    walkthrough ends in its start-up: an exception is raised on the missing
    url, no pass of the loop runs and the database is untouched. *)
Theorem startup_without_url_or_candidate (w : world) :
  frontier_gives_nothing w ->
  (exists e, fst (startup None w) = inl e) /\
  database (snd (startup None w)) = database w /\
  forall n, session n w None = None.
Proof.
  intros N.
  assert (E : startup None w = (inl WebDriverException, snd (next_plan w))).
  { unfold startup, starting_url, bind.
    rewrite (call_get_starting_coordinates_nothing _ N). reflexivity. }
  split; [ rewrite E; eexists; reflexivity | split ].
  - rewrite E. cbn [snd]. unfold next_plan.
    destruct (plans w); reflexivity.
  - intros n. unfold session. rewrite E. reflexivity.
Qed.

Lemma growing_startup (u : option url_value) : growing (startup u).
Proof.
  unfold startup, starting_url, driver_get.
  apply growing_bind.
  { destruct u; [ apply growing_ret | ].
    apply growing_bind; [ apply growing_call_get_starting_coordinates | ].
    intros c. apply growing_ret. }
  intros u'. apply growing_bind.
  { destruct u'; [ apply growing_ret | apply growing_raise ]. }
  intros _. apply growing_bind; [ apply growing_set_url | ].
  intros r. apply growing_ret.
Qed.

Lemma grows_lengths (d d' : db) :
  grows d d' ->
  (List.length (panoids d) <= List.length (panoids d'))%nat /\
  (List.length (to_insert d') <= List.length (to_insert d))%nat.
Proof.
  intros [[a P] [k F]]. rewrite P, F, length_app. split; [ lia | ].
  pose proof (filter_split_length k (to_insert d)). lia.
Qed.

Lemma run_grows (n : nat) :
  forall w st es st' w',
    run n w st = Some (es, st', w') ->
    grows (database w) (database w') /\
    (List.length (panoids (database w)) + commits es
     <= List.length (panoids (database w')))%nat.
Proof.
  induction n as [| n IH]; intros w st es st' w' R; cbn [run] in R.
  - inversion R; subst. split; [ apply grows_refl | cbn; lia ].
  - destruct (loop_body w st) as [[e1 st1 | ] w1] eqn:P1; [ | discriminate ].
    destruct (run n w1 st1) as [[[es1 st2] w2] |] eqn:R1; [ | discriminate ].
    inversion R; subst. destruct (IH _ _ _ _ _ R1) as [G1 L1].
    pose proof (loop_body_grows _ _ _ _ P1) as G0.
    split; [ exact (grows_trans _ _ _ G0 G1) | ].
    destruct e1; unfold commits in *; cbn [filter List.length];
      try (destruct (grows_lengths _ _ G0) as [L0 _]; lia).
    destruct (committed_pass_row _ _ _ _ P1) as (p & E & _).
    rewrite E, length_app in L1. cbn in L1. lia.
Qed.

(** X15. Over a whole session (start-up and any number of passes) the
    database only grows in the sense of [grows]; so, when the counts before
    and after are read without a failure, the statistics printed at the
    end are never negative and [panoids_added] is at least the number of
    passes that reached the end of the loop body. *)
Theorem session_statistics (n : nat) (w w' : world) (u : option url_value)
  (es : list event) (st' : ctrl) :
  session n w u = Some (es, st', w') ->
  grows (database w) (database w') /\
  exists added deleted,
    statistics (initial_counts (get_table_counts false (database w)))
               (get_table_counts false (database w'))
    = Some (added, deleted, added + deleted) /\
    Z.of_nat (commits es) <= added /\ 0 <= deleted.
Proof.
  unfold session. intros H.
  destruct (startup u w) as [[x | st0] w0] eqn:S; [ discriminate | ].
  pose proof (growing_startup u _ _ _ S) as G0.
  destruct (run_grows _ _ _ _ _ _ H) as [G1 L1].
  pose proof (grows_trans _ _ _ G0 G1) as G.
  split; [ exact G | ].
  destruct (grows_lengths _ _ G0) as [A0 _].
  destruct (grows_lengths _ _ G) as [_ B].
  unfold get_table_counts, initial_counts, statistics. cbn [fst snd].
  eexists. eexists. split; [ reflexivity | ]. lia.
Qed.

End WalkthroughFacts.

(** ** Addresses *)

Section LinkFacts.

Import UrlParser Links.
Local Open Scope string_scope.

Lemma all_chars_app (p : ascii -> bool) (a b : string) :
  all_chars p (a ++ b) = all_chars p a && all_chars p b.
Proof.
  induction a as [| c a IH]; cbn; [ reflexivity | ].
  rewrite IH, andb_assoc. reflexivity.
Qed.

Lemma all_chars_weaken (p q : ascii -> bool) (s : string) :
  (forall c, p c = true -> q c = true) ->
  all_chars p s = true -> all_chars q s = true.
Proof.
  intros W. induction s as [| c s IH]; cbn; [ auto | ].
  intros H. apply andb_true_iff in H. destruct H as [H1 H2].
  rewrite (W c H1), (IH H2). reflexivity.
Qed.

(** A matcher that needs a given first character finds nothing in a text
    without it. *)
Lemma search_lacking {A : Type} (m : string -> option A) (c : ascii) :
  m "" = None ->
  (forall x t, Ascii.eqb x c = false -> m (String x t) = None) ->
  forall s, lacks c s = true -> search m s = None.
Proof.
  intros M0 M. induction s as [| x s IH]; cbn; intros L.
  - rewrite M0. reflexivity.
  - apply andb_true_iff in L. destruct L as [L1 L2].
    apply negb_true_iff in L1. rewrite (M x s L1). exact (IH L2).
Qed.

(** ... and skips over a stretch without it. *)
Lemma search_skip {A : Type} (m : string -> option A) (c : ascii) :
  (forall x t, Ascii.eqb x c = false -> m (String x t) = None) ->
  forall a r, lacks c a = true -> r <> "" -> search m (a ++ r) = search m r.
Proof.
  intros M a r. induction a as [| x a IH]; cbn; intros L R; [ reflexivity | ].
  apply andb_true_iff in L. destruct L as [L1 L2].
  apply negb_true_iff in L1. rewrite (M x _ L1). exact (IH L2 R).
Qed.

Lemma search_found {A : Type} (m : string -> option A) (pre t : string) (r : A) :
  m t = Some r -> exists r', search m (pre ++ t) = Some r'.
Proof.
  intros H. induction pre as [| c pre IH]; cbn.
  - destruct t; cbn; rewrite H; eauto.
  - destruct (m (String c (pre ++ t))); eauto.
Qed.

Lemma search_some_at {A : Type} (m : string -> option A) (s : string) (r : A) :
  search m s = Some r -> exists pre t, s = pre ++ t /\ m t = Some r.
Proof.
  induction s as [| c s IH]; cbn.
  - destruct (m "") eqn:E; [ | discriminate ].
    intros H. inversion H; subst. exists "", "". auto.
  - destruct (m (String c s)) eqn:E.
    + intros H. inversion H; subst. exists "", (String c s). auto.
    + intros H. destruct (IH H) as (pre & t & -> & Ht).
      exists (String c pre), t. auto.
Qed.

Lemma lat_lon_at_needs_slash (x : ascii) (t : string) :
  Ascii.eqb x "/"%char = false -> lat_lon_at (String x t) = None.
Proof.
  intros H. unfold lat_lon_at. cbn [lit].
  rewrite Ascii.eqb_sym, H. reflexivity.
Qed.

Lemma panoid_at_needs_p (x : ascii) (t : string) :
  Ascii.eqb x "p"%char = false -> panoid_at (String x t) = None.
Proof.
  intros H. unfold panoid_at. cbn [lit].
  rewrite Ascii.eqb_sym, H. reflexivity.
Qed.

Lemma pano3m5_at_needs_bang (x : ascii) (t : string) :
  Ascii.eqb x "!"%char = false -> pano3m5_at (String x t) = None.
Proof.
  intros H. unfold pano3m5_at. cbn [lit].
  rewrite Ascii.eqb_sym, H. reflexivity.
Qed.

(** X16. A pano id that [parse_google_maps_url] returns is never empty.
    It is the group of [panoid%3D] wherever that pattern matches, and
    then holds no [%] and no [&]; otherwise it is the group of [!3m5!1s]
    and holds no [!]. *)
Theorem pano_id_shape (url : string) (lat long : option float) (p : string) :
  parse_google_maps_url url = (lat, long, Some p) ->
  p <> "" /\
  match search panoid_at url with
  | Some g => p = g /\ all_chars not_pct_amp p = true
  | None => search pano3m5_at url = Some p /\ all_chars not_bang p = true
  end.
Proof.
  unfold parse_google_maps_url, parse_body.
  destruct (search lat_lon_at url) as [[g1 g2] |]; [ | discriminate ].
  destruct (py_float g1); [ | discriminate ].
  destruct (py_float g2); [ | discriminate ].
  destruct (search panoid_at url) as [g |] eqn:S1.
  - intros H. inversion H; subst.
    apply search_some in S1. destruct S1 as [t S1]. unfold panoid_at in S1.
    destruct (lit "panoid%3D" t) as [s1 |]; [ | discriminate ].
    destruct (plus not_pct_amp s1) as [[g' r] |] eqn:P; [ | discriminate ].
    inversion S1; subst.
    destruct (plus_spec _ _ _ _ P) as (_ & N & A & _). auto.
  - destruct (search pano3m5_at url) as [g |] eqn:S2; [ | discriminate ].
    intros H. inversion H; subst.
    apply search_some in S2. destruct S2 as [t S2]. unfold pano3m5_at in S2.
    destruct (lit "!3m5!1s" t) as [s1 |]; [ | discriminate ].
    destruct (plus not_bang s1) as [[g' r] |] eqn:P; [ | discriminate ].
    destruct (lit "!" r); [ | discriminate ].
    inversion S2; subst.
    destruct (plus_spec _ _ _ _ P) as (_ & N & A & _). auto.
Qed.

(** X17. The address that [create_streetview_url] builds is not one that
    [parse_google_maps_url] can read: whatever the two numbers print as,
    short of an [@], the parse gives [(None, None, None)]. *)
Theorem created_url_does_not_parse (latitude longitude : string) :
  lacks "@" latitude = true -> lacks "@" longitude = true ->
  parse_google_maps_url (streetview_url_text latitude longitude)
  = (None, None, None).
Proof.
  intros A B.
  assert (L : lacks "@" (streetview_url_text latitude longitude) = true).
  { unfold streetview_url_text, lacks in *.
    rewrite !all_chars_app, A, B. reflexivity. }
  assert (N : search lat_lon_at (streetview_url_text latitude longitude) = None).
  { clear A B. revert L.
    generalize (streetview_url_text latitude longitude) as s.
    induction s as [| x s IH]; cbn; intros L; [ reflexivity | ].
    apply andb_true_iff in L. destruct L as [L1 L2].
    rewrite (IH L2).
    assert (Q : lat_lon_at (String x s) = None); [ | rewrite Q; reflexivity ].
    unfold lat_lon_at. cbn [lit].
    destruct (Ascii.eqb "/"%char x); [ | reflexivity ].
    destruct s as [| y s]; [ reflexivity | ].
    cbn in L2. apply andb_true_iff in L2. destruct L2 as [L2 _].
    apply negb_true_iff in L2. rewrite Ascii.eqb_sym, L2. reflexivity. }
  unfold parse_google_maps_url, parse_body. rewrite N. reflexivity.
Qed.

(** *** The link of the map popups *)

Lemma append_assoc (a b c : string) : (a ++ b) ++ c = a ++ b ++ c.
Proof. induction a as [| x a IH]; cbn; congruence. Qed.

Lemma lit_spec (l t r : string) : lit l t = Some r -> t = l ++ r.
Proof.
  revert t. induction l as [| a l IH]; cbn; intros t H.
  - inversion H. reflexivity.
  - destruct t as [| c t]; [ discriminate | ].
    destruct (Ascii.eqb_spec a c) as [-> |]; [ | discriminate ].
    rewrite (IH _ H). reflexivity.
Qed.

Lemma number_spec (s : string) (neg : bool) (ip fp rest : string) :
  number s = Some (neg, ip, fp, rest) ->
  s = number_text neg ip fp ++ rest /\
  ip <> "" /\ fp <> "" /\
  all_chars is_digit ip = true /\ all_chars is_digit fp = true /\
  stops is_digit rest = true.
Proof.
  unfold number.
  set (pre := match s with
              | String c s' => if Ascii.eqb c "-"%char then (true, s') else (false, s)
              | EmptyString => (false, s)
              end).
  destruct pre as [neg0 s1] eqn:Hpre.
  destruct (plus is_digit s1) as [[ip0 s2] |] eqn:Hip; [ | discriminate ].
  destruct (lit "." s2) as [s3 |] eqn:Hdot; [ | discriminate ].
  destruct (plus is_digit s3) as [[fp0 s4] |] eqn:Hfp; [ | discriminate ].
  intros H; inversion H; subst neg0 ip0 fp0 s4. clear H.
  destruct (plus_spec _ _ _ _ Hip) as (E1 & N1 & D1 & _).
  destruct (plus_spec _ _ _ _ Hfp) as (E2 & N2 & D2 & S2).
  apply lit_spec in Hdot.
  repeat split; auto.
  assert (Es : s = (if neg then "-" else "") ++ s1).
  { subst pre. destruct s as [| c s]; [ inversion Hpre; reflexivity | ].
    destruct (Ascii.eqb_spec c "-"%char) as [-> |];
      inversion Hpre; reflexivity. }
  rewrite Es, E1, Hdot, E2. unfold number_text.
  destruct neg; cbn; rewrite ?append_assoc; cbn; reflexivity.
Qed.

Lemma number_ext (neg : bool) (ip fp r : string) :
  ip <> "" -> fp <> "" ->
  all_chars is_digit ip = true -> all_chars is_digit fp = true ->
  stops is_digit r = true ->
  number (number_text neg ip fp ++ r) = Some (neg, ip, fp, r).
Proof.
  intros N1 N2 D1 D2 S.
  assert (R1 : plus is_digit (ip ++ String "." (fp ++ r))
               = Some (ip, String "." (fp ++ r)))
    by (apply plus_run; auto).
  assert (R2 : plus is_digit (fp ++ r) = Some (fp, r))
    by (apply plus_run; auto).
  assert (E : forall pre, (pre ++ ip ++ "." ++ fp) ++ r
                          = pre ++ ip ++ String "." (fp ++ r)).
  { intros pre. rewrite !append_assoc. reflexivity. }
  unfold number, number_text. rewrite E. destruct neg; cbn [append].
  - cbn [Ascii.eqb Bool.eqb]. rewrite R1. cbn [lit Ascii.eqb Bool.eqb].
    rewrite R2. reflexivity.
  - destruct ip as [| c ip]; [ congruence | ]. cbn [append].
    assert (Hc : Ascii.eqb c "-"%char = false).
    { cbn in D1. apply andb_true_iff in D1. destruct D1 as [Hc _].
      destruct (Ascii.eqb_spec c "-"%char) as [-> |];
        [ discriminate | reflexivity ]. }
    rewrite Hc.
    change (String c (ip ++ String "." (fp ++ r)))
      with (String c ip ++ String "." (fp ++ r)).
    rewrite R1. cbn [lit Ascii.eqb Bool.eqb]. rewrite R2. reflexivity.
Qed.

(** What [float()] accepts here is a sign, digits, a dot and digits; such a
    text holds none of the characters the patterns key on. *)
Lemma py_float_text (s : string) (x : float) :
  py_float s = Some x ->
  (forall r, stops is_digit r = true ->
             number (s ++ r) = match number s with
                               | Some (n, i, f, _) => Some (n, i, f, r)
                               | None => None
                               end) /\
  (exists n i f, number s = Some (n, i, f, "") /\ s = number_text n i f) /\
  lacks "!" s = true /\ lacks "%" s = true.
Proof.
  unfold py_float.
  destruct (number s) as [[[[n i] f] rest] |] eqn:N; [ | discriminate ].
  destruct rest; [ | discriminate ]. intros _.
  destruct (number_spec _ _ _ _ _ N) as (E & N1 & N2 & D1 & D2 & _).
  assert (E' : s = number_text n i f).
  { rewrite E. clear. induction (number_text n i f); cbn; congruence. }
  split; [ | split ].
  - intros r S. rewrite E' at 1. apply number_ext; auto.
  - exists n, i, f. auto.
  - assert (W : forall c, c = "!"%char \/ c = "%"%char ->
                  lacks c s = true).
    { intros c Hc. rewrite E'. unfold lacks, number_text.
      assert (Q : forall d, is_digit d = true -> negb (Ascii.eqb d c) = true).
      { intros d Hd. apply negb_true_iff.
        destruct (Ascii.eqb_spec d c) as [-> |]; [ | reflexivity ].
        destruct Hc as [-> | ->]; discriminate. }
      rewrite !all_chars_app.
      rewrite (all_chars_weaken _ _ _ Q D1), (all_chars_weaken _ _ _ Q D2).
      destruct Hc as [-> | ->]; destruct n; reflexivity. }
    split; apply W; auto.
Qed.

Lemma search_cons_none {A : Type} (m : string -> option A) (c : ascii)
  (s : string) :
  m (String c s) = None -> search m (String c s) = search m s.
Proof. intros H. cbn. rewrite H. reflexivity. Qed.

Lemma search_lacks_panoid (s : string) :
  lacks "%" s = true -> search panoid_at s = None.
Proof.
  intros L. destruct (search panoid_at s) as [g |] eqn:E; [ | reflexivity ].
  apply search_some_at in E. destruct E as (pre & t & -> & T).
  unfold panoid_at in T.
  destruct (lit "panoid%3D" t) as [s1 |] eqn:P; [ | discriminate ].
  apply lit_spec in P. subst t.
  unfold lacks in L. rewrite all_chars_app in L.
  apply andb_true_iff in L. destruct L as [_ L]. cbn in L. discriminate.
Qed.

(** X18. The Street View link of a map popup reads back through
    [parse_google_maps_url] with its two coordinates, as [float()] reads
    their texts, and without its pano id: the link carries the id after
    [!3m2!1s], the parser looks for it after [!3m5!1s]. *)
Theorem popup_link_loses_pano_id (lat lon pano_id : string) (x y : float) :
  py_float lat = Some x -> py_float lon = Some y ->
  lacks "!" pano_id = true -> lacks "%" pano_id = true ->
  parse_google_maps_url (street_view_link lat lon pano_id)
  = (Some x, Some y, None).
Proof.
  intros Fx Fy Lb Lp.
  destruct (py_float_text _ _ Fx) as (Xn & (n1 & i1 & f1 & X1 & X2) & Xb & Xp).
  destruct (py_float_text _ _ Fy) as (Yn & (n2 & i2 & f2 & Y1 & Y2) & Yb & Yp).
  assert (S1 : search lat_lon_at (street_view_link lat lon pano_id)
               = Some (lat, lon)).
  { unfold street_view_link. cbn [append].
    repeat (rewrite search_cons_none by reflexivity).
    cbn [search]. unfold lat_lon_at at 1. cbn [lit Ascii.eqb Bool.eqb].
    rewrite Xn by reflexivity. rewrite X1. cbn [lit Ascii.eqb Bool.eqb].
    rewrite Yn by reflexivity. rewrite Y1. cbn [lit Ascii.eqb Bool.eqb].
    rewrite <- X2, <- Y2. reflexivity. }
  assert (S2 : search panoid_at (street_view_link lat lon pano_id) = None).
  { apply search_lacks_panoid. unfold street_view_link, lacks in *.
    rewrite !all_chars_app, Xp, Yp, Lp. reflexivity. }
  assert (S3 : search pano3m5_at (street_view_link lat lon pano_id) = None).
  { unfold street_view_link. cbn [append].
    repeat (rewrite search_cons_none by reflexivity).
    rewrite (search_skip _ "!"%char pano3m5_at_needs_bang lat _ Xb)
      by discriminate.
    repeat (rewrite search_cons_none by reflexivity).
    rewrite (search_skip _ "!"%char pano3m5_at_needs_bang lon _ Yb)
      by discriminate.
    repeat (rewrite search_cons_none by reflexivity).
    rewrite (search_skip _ "!"%char pano3m5_at_needs_bang pano_id _ Lb)
      by discriminate.
    repeat (rewrite search_cons_none by reflexivity).
    reflexivity. }
  unfold parse_google_maps_url, parse_body.
  rewrite S1, Fx, Fy, S2, S3. reflexivity.
Qed.

(** *** The clipboard *)

Lemma rstrip_idem (s : string) : rstrip (rstrip s) = rstrip s.
Proof.
  induction s as [| c s IH]; cbn; [ reflexivity | ].
  destruct (rstrip s) as [| d t] eqn:E.
  - destruct (is_space c) eqn:Sc; cbn; [ reflexivity | ].
    rewrite Sc. reflexivity.
  - cbn [rstrip]. cbn [rstrip] in IH. rewrite IH. reflexivity.
Qed.

Lemma lstrip_rstrip_lstrip (s : string) :
  lstrip (rstrip (lstrip s)) = rstrip (lstrip s).
Proof.
  induction s as [| c s IH]; cbn; [ reflexivity | ].
  destruct (is_space c) eqn:Sc; [ exact IH | ].
  cbn [rstrip].
  destruct (rstrip s); cbn; rewrite Sc; cbn; rewrite ?Sc; reflexivity.
Qed.

Lemma strip_idem (s : string) : strip (strip s) = strip s.
Proof.
  unfold strip. rewrite lstrip_rstrip_lstrip. apply rstrip_idem.
Qed.

(** X19. What [get_url_from_clipboard] returns is the stripped clipboard
    text, and the function accepts its own answer unchanged: given that
    text again it returns it again. *)
Theorem get_url_from_clipboard_stable (out url : string) :
  get_url_from_clipboard (Some out) = Some url ->
  url = strip out /\ get_url_from_clipboard (Some url) = Some url.
Proof.
  unfold get_url_from_clipboard. cbv zeta.
  destruct ((contains "google.com/maps" (strip out)
             || contains "google.fr/maps" (strip out))
            && contains "@" (strip out)) eqn:T; [ | discriminate ].
  intros H. inversion H; subst url. split; [ reflexivity | ].
  rewrite strip_idem, T. reflexivity.
Qed.

(** X20. An address in which [parse_google_maps_url] finds coordinates
    contains an [@], the character that [get_url_from_clipboard] asks
    for. *)
Theorem parsed_url_contains_at (url : string) (lat : float)
  (long : option float) (pano_id : option string) :
  parse_google_maps_url url = (Some lat, long, pano_id) ->
  contains "@" url = true.
Proof.
  unfold parse_google_maps_url, parse_body.
  destruct (search lat_lon_at url) as [[g1 g2] |] eqn:S; [ | discriminate ].
  intros _. apply search_some_at in S. destruct S as (pre & t & -> & T).
  unfold lat_lon_at in T.
  destruct (lit "/@" t) as [s1 |] eqn:L; [ | discriminate ].
  apply lit_spec in L. subst t.
  change ("/@" ++ s1) with ("/" ++ "@" ++ s1). rewrite <- append_assoc.
  unfold contains.
  destruct (search_found (lit "@") (pre ++ "/") ("@" ++ s1) s1 eq_refl)
    as [r ->].
  reflexivity.
Qed.

End LinkFacts.

(** ** Runs of the further properties on sample data *)

Section CaseRuns.

Import Store Controller Cleanup Walkthrough Links UrlParser.
Import Planar Sample Session Cases.
Local Open Scope Z_scope.

(** The count of the remaining rows fails after the candidate next to the
    stored panorama has been deleted: the answer is 0 and the candidate is
    gone. *)
Lemma delete_close_points_failures_witness :
  delete_close_points_from_to_insert count_fails
    {| to_insert := [cand_1; cand_3]; panoids := [row_A] |} 10 false
  = (0%nat, {| to_insert := [cand_3]; panoids := [row_A] |}).
Proof.
  rewrite (proj2 (delete_close_points_failures count_fails _ 10)
             eq_refl eq_refl eq_refl eq_refl).
  vm_compute. reflexivity.
Defined.

(** A is committed next to two candidates; after the clean-up at 30 m the
    only candidate left is the one near B, 700 m away. *)
Lemma cleanup_after_commit_witness :
  ST_DWithin (6.1744465, 48.6800000)%float (long_A, lat_A) 30 = false.
Proof.
  apply (cleanup_after_commit
           {| to_insert := [cand_1; cand_2; cand_3]; panoids := [] |}
           lat_A long_A 30 (Some pano_A) cand_3).
  - vm_compute. left. reflexivity.
  - reflexivity.
Defined.

(** The pass on B commits it. *)
Lemma committed_pass_stores_one_row_witness :
  exists st' w' pano_id,
    loop_body w_commit st_fresh = (Continue Committed st', w') /\
    panoids (database w') =
      [{| p_latitude := fst (old_lat_long st');
          p_longitude := snd (old_lat_long st');
          p_pano_id := Some pano_id |}].
Proof.
  pose (r := loop_body w_commit st_fresh).
  assert (E : loop_body w_commit st_fresh = r) by reflexivity.
  vm_compute in r. subst r.
  match type of E with
  | _ = (Continue _ ?s, ?w') => exists s, w'
  end.
  destruct (committed_pass_stores_one_row _ _ _ _ E) as (p & P & _).
  exists p. split; [ exact E | exact P ].
Defined.

(** The first rejected pass of the unreachable database. *)
Lemma retry_pass_stores_nothing_witness :
  exists st' w',
    loop_body w_rejecting st_fresh = (Continue Retry st', w') /\
    panoids (database w') = [].
Proof.
  pose (r := loop_body w_rejecting st_fresh).
  assert (E : loop_body w_rejecting st_fresh = r) by reflexivity.
  vm_compute in r. subst r.
  match type of E with
  | _ = (Continue _ ?s, ?w') => exists s, w'
  end.
  split; [ exact E | exact (retry_pass_stores_nothing _ _ _ _ E) ].
Defined.

Lemma w_query_fails_gives_nothing : frontier_gives_nothing w_query_fails.
Proof.
  right. exists (fault_at ExecSelect), []. split; [ reflexivity | ].
  right. reflexivity.
Defined.

(** The frontier holds a candidate, the query fails, and the reseed
    returns the url it was given. *)
Lemma reseed_when_frontier_gives_nothing_witness :
  exists w',
    reseed (Some (GivenUrl url_A)) w_query_fails
    = (inr (Some (GivenUrl url_A), (0, 0)%float, 0), w').
Proof.
  rewrite (reseed_when_frontier_gives_nothing _ _ w_query_fails_gives_nothing).
  eexists. vm_compute. reflexivity.
Defined.

Lemma startup_without_url_or_candidate_witness :
  session 3 w_query_fails None = None.
Proof.
  exact (proj2 (proj2 (startup_without_url_or_candidate _
                         w_query_fails_gives_nothing)) 3%nat).
Defined.

(** Start-up on A, a commit of B, then a stall. *)
Lemma session_statistics_witness :
  exists st' w' added deleted,
    session 2 w_session (Some (GivenUrl url_A))
    = Some ([Committed; Stalled], st', w') /\
    statistics (initial_counts (get_table_counts false (database w_session)))
               (get_table_counts false (database w'))
    = Some (added, deleted, added + deleted) /\
    1 <= added /\ 0 <= deleted.
Proof.
  pose (r := session 2 w_session (Some (GivenUrl url_A))).
  assert (E : session 2 w_session (Some (GivenUrl url_A)) = r) by reflexivity.
  vm_compute in r. subst r.
  match type of E with
  | _ = Some (_, ?s, ?w') => exists s, w'
  end.
  destruct (session_statistics _ _ _ _ _ _ E) as (_ & a & d & S & A & D).
  exists a, d. split; [ exact E | ]. split; [ exact S | ].
  split; [ exact A | exact D ].
Defined.

Local Open Scope string_scope.

Lemma pano_id_shape_witness :
  pano_A <> "" /\ all_chars not_bang pano_A = true.
Proof.
  destruct (pano_id_shape url_A (Some lat_A) (Some long_A) pano_A) as [N S].
  - vm_compute. reflexivity.
  - split; [ exact N | ].
    assert (Q : search panoid_at url_A = None) by (vm_compute; reflexivity).
    rewrite Q in S. exact (proj2 S).
Defined.

Lemma created_url_does_not_parse_witness :
  parse_google_maps_url (streetview_url_text "48.68000000" "6.17444650")
  = (None, None, None).
Proof.
  exact (created_url_does_not_parse "48.68000000" "6.17444650" eq_refl eq_refl).
Defined.

Lemma popup_link_loses_pano_id_witness :
  parse_google_maps_url
    (street_view_link "48.67382460" "6.17444650" pano_A)
  = (Some 48.6738246%float, Some 6.1744465%float, None).
Proof.
  apply popup_link_loses_pano_id; vm_compute; reflexivity.
Defined.

Lemma get_url_from_clipboard_stable_witness :
  get_url_from_clipboard (Some url_no_pano) = Some url_no_pano.
Proof.
  destruct (get_url_from_clipboard_stable clipboard_text url_no_pano) as [_ S].
  - vm_compute. reflexivity.
  - exact S.
Defined.

Lemma parsed_url_contains_at_witness :
  contains "@" url_no_pano = true.
Proof.
  apply (parsed_url_contains_at url_no_pano 48.6738246%float
           (Some 6.1744465%float) None).
  vm_compute. reflexivity.
Defined.

(** A call without a latitude: with the database reachable the insert
    raises after the prune query was answered; when the prune query fails
    the call returns [False] before the coordinate is looked at. *)
Lemma insert_db_raises_on_missing_coordinate_witness :
  insert_db no_fault {| to_insert := [cand_1]; panoids := [] |}
    None (Some long_A) (Some pano_A) =
    (Raised, {| to_insert := [cand_1]; panoids := [] |}) /\
  insert_db (fault_at ExecSelect) {| to_insert := [cand_1]; panoids := [] |}
    None (Some long_A) (Some pano_A) =
    (Returned false, {| to_insert := [cand_1]; panoids := [] |}).
Proof.
  split;
    rewrite insert_db_raises_on_missing_coordinate by (left; reflexivity);
    reflexivity.
Defined.

(** A dry run next to a real run: one of the two frontier rows lies within
    10 m of a visited panorama; the real run deletes it and returns 1, the
    dry run returns 0 and deletes nothing. *)
Lemma delete_close_points_dry_run_example :
  delete_close_points_from_to_insert clean_run
    {| to_insert := [cand_1; cand_3]; panoids := [row_A] |} 10 true =
    (0%nat, {| to_insert := [cand_1; cand_3]; panoids := [row_A] |}) /\
  delete_close_points_from_to_insert clean_run
    {| to_insert := [cand_1; cand_3]; panoids := [row_A] |} 10 false =
    (1%nat, {| to_insert := [cand_3]; panoids := [row_A] |}).
Proof.
  split; vm_compute; reflexivity.
Qed.

End CaseRuns.
